(** * Authentication and credential lifecycle of the web application

    A shallow embedding of [server/auth.ts] (password hashing, the passport
    strategies, the register / login / current-user / forgot-password /
    reset-password handlers), of [server/storage.ts] (the [DatabaseStorage]
    methods over the [users] table) and of [shared/schema.ts] (the table and
    the zod schemas).

    Conventions.
    - A JavaScript string is a [string]; a character is one code unit.
    - A [Buffer] is a [list byte].
    - An [async] function that can throw and touches the database or the
      random generator is a computation [M A]: it takes the [World] and
      returns either a value or the thrown [error], with the world it left.
    - The text columns [created_at] and [reset_token_expiry] hold
      [Date.toISOString()] renderings; [new Date(text)] gives the instant
      back, so the model keeps the instant itself, in milliseconds since the
      epoch ([Z]).
    - What the libraries decide (the scrypt key derivation, zod's e-mail
      pattern, the text of a [ZodError], the mail provider's answer, the
      deployment environment) is a [Variable] of the section. *)

From Stdlib Require Import ZArith NArith List String Ascii Bool Lia.
From Stdlib Require Import Strings.Byte.
Import ListNotations.

Local Open Scope Z_scope.
Local Open Scope string_scope.

(** ** Exceptions *)

(** The exceptions the modelled code can raise.  [message] is the
    [error.message] the handlers copy into a 400 body. *)
Inductive issue : Type :=
| Issue (path : string) (msg : string).

Inductive error : Type :=
| ERR_INVALID_ARG_TYPE                 (* TypeError: scrypt called with salt = undefined *)
| ERR_CRYPTO_TIMING_SAFE_EQUAL_LENGTH  (* RangeError: timingSafeEqual on buffers of different length *)
| ZodError (issues : list issue)       (* schema.parse on a body that does not validate *)
| UniqueViolation (constraint : string) (* the database refusing a duplicate key *)
| NoEmailFromGoogle.                   (* new Error("No email provided from Google") *)

Inductive result (A : Type) : Type :=
| Ok (a : A)
| Throw (e : error).
Arguments Ok {A} a.
Arguments Throw {A} e.

(** ** Buffers and the "hex" encoding *)

(** One lower-case hexadecimal digit, as [buf.toString("hex")] writes it. *)
Definition hexDigit (n : N) : ascii :=
  if (n <? 10)%N then ascii_of_N (48 + n) else ascii_of_N (87 + n).

(** Value of a hexadecimal digit; [Buffer.from(s, "hex")] reads both cases. *)
Definition unhex (c : ascii) : option N :=
  let n := N_of_ascii c in
  if ((48 <=? n) && (n <=? 57))%N then Some (n - 48)%N
  else if ((97 <=? n) && (n <=? 102))%N then Some (n - 87)%N
  else if ((65 <=? n) && (n <=? 70))%N then Some (n - 55)%N
  else None.

Definition byte_of_N (n : N) : byte :=
  match Byte.of_N n with
  | Some b => b
  | None => x00
  end.

(** [buf.toString("hex")] *)
Fixpoint toString_hex (buf : list byte) : string :=
  match buf with
  | [] => EmptyString
  | b :: rest =>
      String (hexDigit (Byte.to_N b / 16))
        (String (hexDigit (Byte.to_N b mod 16)) (toString_hex rest))
  end.

(** [Buffer.from(s, "hex")]: decodes pairs of digits and stops, without an
    error, at the first pair that is not two hexadecimal digits; a trailing
    single character is dropped. *)
Fixpoint Buffer_from_hex (s : string) : list byte :=
  match s with
  | String a (String b rest) =>
      match unhex a, unhex b with
      | Some hi, Some lo => byte_of_N (16 * hi + lo) :: Buffer_from_hex rest
      | _, _ => []
      end
  | _ => []
  end.

(** [s.split(sep)] for a one-character separator: never empty. *)
Fixpoint split (sep : ascii) (s : string) : list string :=
  match s with
  | EmptyString => [EmptyString]
  | String c rest =>
      if Ascii.eqb c sep then EmptyString :: split sep rest
      else
        match split sep rest with
        | hd :: tl => String c hd :: tl
        | [] => [String c EmptyString]
        end
  end.

Definition list_byte_eqb (a b : list byte) : bool :=
  if list_eq_dec Byte.byte_eq_dec a b then true else false.

(** [crypto.timingSafeEqual]: a RangeError when the lengths differ, else
    whether the two buffers hold the same bytes. *)
Definition timingSafeEqual (a b : list byte) : result bool :=
  if Nat.eqb (List.length a) (List.length b) then Ok (list_byte_eqb a b)
  else Throw ERR_CRYPTO_TIMING_SAFE_EQUAL_LENGTH.

(** ** shared/schema.ts *)

(** A row of the [users] table. *)
Record User : Type := mkUser {
  id : Z;
  email : string;
  password : string;
  createdAt : Z;
  isGoogleUser : bool;
  resetToken : option string;
  resetTokenExpiry : option Z
}.

(** [InsertUser]: the insert schema keeps [email] and [password] only. *)
Record InsertUser : Type := mkInsertUser {
  insert_email : string;
  insert_password : string
}.

Definition in_range (lo hi : N) (c : ascii) : bool :=
  ((lo <=? N_of_ascii c) && (N_of_ascii c <=? hi))%N.

Definition isUpper : ascii -> bool := in_range 65 90.
Definition isLower : ascii -> bool := in_range 97 122.
Definition isDigit : ascii -> bool := in_range 48 57.

(** [re.test(s)] for a pattern that is one character class. *)
Definition regex_test (class : ascii -> bool) (s : string) : bool :=
  existsb class (list_ascii_of_string s).

(** The checks of [baseUserSchema.shape.password], in order; zod runs them
    all and reports every one that fails. *)
Definition password_checks : list ((string -> bool) * string) :=
  [ (fun s => (8 <=? String.length s)%nat,
       "Password must be at least 8 characters");
    (regex_test isUpper,
       "Password must contain at least one uppercase letter");
    (regex_test isLower,
       "Password must contain at least one lowercase letter");
    (regex_test isDigit,
       "Password must contain at least one number");
    (regex_test (fun c => negb (isUpper c || isLower c || isDigit c)),
       "Password must contain at least one special character") ].

Definition password_issues (field : option string) : list issue :=
  match field with
  | None => [Issue "password" "Required"]
  | Some s =>
      map (fun chk => Issue "password" (snd chk))
          (filter (fun chk => negb (fst chk s)) password_checks)
  end.

Definition email_issues (isEmail : string -> bool) (field : option string) : list issue :=
  match field with
  | None => [Issue "email" "Required"]
  | Some e =>
      if isEmail e then [] else [Issue "email" "Please enter a valid email address"]
  end.

Definition token_issues (field : option string) : list issue :=
  match field with
  | None => [Issue "token" "Required"]
  | Some _ => []
  end.

(** A parsed JSON request body, as far as the schemas look at it: each
    property is a string or is missing. *)
Record Body : Type := mkBody {
  body_email : option string;
  body_password : option string;
  body_token : option string
}.

(** ** The world the server runs in *)

(** The write statements [DatabaseStorage] sends to the database. *)
Inductive statement : Type :=
| InsertUser_stmt (row : User)
| SetResetToken_stmt (userId : Z) (token : string) (expiry : Z)
| UpdatePassword_stmt (userId : Z) (hashedPassword : string).

Record World : Type := mkWorld {
  users : list User;                 (* the rows of [users], in storage order *)
  users_id_seq : Z;                  (* next value of the [serial] id *)
  journal : list statement;          (* statements executed, latest first *)
  entropy : nat -> byte;             (* what [randomBytes] will hand out *)
  outbox : list (string * string)    (* (to, resetLink) of the mails accepted *)
}.

Definition M (A : Type) : Type := World -> result A * World.

Definition ret {A : Type} (a : A) : M A := fun w => (Ok a, w).

Definition throw {A : Type} (e : error) : M A := fun w => (Throw e, w).

Definition lift {A : Type} (r : result A) : M A := fun w => (r, w).

Definition bind {A B : Type} (m : M A) (k : A -> M B) : M B :=
  fun w =>
    match m w with
    | (Ok a, w') => k a w'
    | (Throw e, w') => (Throw e, w')
    end.

(** [try { m } catch (error) { h(error) }] *)
Definition try_catch {A : Type} (m : M A) (h : error -> M A) : M A :=
  fun w =>
    match m w with
    | (Ok a, w') => (Ok a, w')
    | (Throw e, w') => h e w'
    end.

Notation "x <- m ;; k" := (bind m (fun x => k))
  (at level 61, m at next level, right associativity).

(** [crypto.randomBytes(n)]: the next [n] bytes of the generator. *)
Definition randomBytes (n : nat) : M (list byte) :=
  fun w =>
    (Ok (map (entropy w) (seq 0 n)),
     mkWorld (users w) (users_id_seq w) (journal w)
             (fun i => entropy w (n + i)%nat) (outbox w)).

(** ** server/storage.ts *)

Definition option_string_eqb (a : option string) (b : string) : bool :=
  match a with
  | Some s => String.eqb s b
  | None => false
  end.

(** [const [user] = await db.select().from(users).where(...)]: the first
    matching row, or [undefined]. *)
Definition getUser (userId : Z) : M (option User) :=
  fun w => (Ok (find (fun u => Z.eqb (id u) userId) (users w)), w).

Definition getUserByEmail (e : string) : M (option User) :=
  fun w => (Ok (find (fun u => String.eqb (email u) e) (users w)), w).

Definition getUserByResetToken (token : string) : M (option User) :=
  fun w => (Ok (find (fun u => option_string_eqb (resetToken u) token) (users w)), w).

(** What one write statement does to the table. *)
Definition exec (s : statement) (rows : list User) : list User :=
  match s with
  | InsertUser_stmt row => (rows ++ [row])%list
  | SetResetToken_stmt userId token expiry =>
      map (fun u =>
             if Z.eqb (id u) userId
             then mkUser (id u) (email u) (password u) (createdAt u)
                         (isGoogleUser u) (Some token) (Some expiry)
             else u) rows
  | UpdatePassword_stmt userId hashedPassword =>
      map (fun u =>
             if Z.eqb (id u) userId
             then mkUser (id u) (email u) hashedPassword (createdAt u)
                         (isGoogleUser u) None None
             else u) rows
  end.

Definition execute (s : statement) : M unit :=
  fun w =>
    (Ok tt,
     mkWorld (exec s (users w)) (users_id_seq w) (s :: journal w)
             (entropy w) (outbox w)).

(** [nextval] of the id sequence. *)
Definition nextval : M Z :=
  fun w =>
    (Ok (users_id_seq w),
     mkWorld (users w) (users_id_seq w + 1) (journal w) (entropy w) (outbox w)).

(** [createUser]: the row gets the next id, the creation instant and
    [isGoogleUser: false]; the primary key and the unique e-mail are the
    table's constraints. *)
Definition createUser (insertUser : InsertUser) (now : Z) : M User :=
  newId <- nextval ;;
  let row := mkUser newId (insert_email insertUser) (insert_password insertUser)
                    now false None None in
  byId <- getUser newId ;;
  byEmail <- getUserByEmail (insert_email insertUser) ;;
  match byId, byEmail with
  | Some _, _ => throw (UniqueViolation "users_pkey")
  | None, Some _ => throw (UniqueViolation "users_email_unique")
  | None, None => _ <- execute (InsertUser_stmt row) ;; ret row
  end.

Definition setResetToken (userId : Z) (token : string) (expiry : Z) : M unit :=
  execute (SetResetToken_stmt userId token expiry).

Definition updatePassword (userId : Z) (hashedPassword : string) : M unit :=
  execute (UpdatePassword_stmt userId hashedPassword).

(** ** HTTP replies *)

#[local] Unset Elimination Schemes.
Inductive json : Type :=
| JNull
| JBool (b : bool)
| JNumber (n : Z)
| JString (s : string)
| JInstant (t : Z)                         (* a string holding an ISO date *)
| JObject (members : list (string * json)).
#[local] Set Elimination Schemes.

Inductive payload : Type :=
| Json (j : json)
| Text (s : string).

Inductive outcome : Type :=
| Respond (status : Z) (body : payload)
| Redirect (location : string)
| Next (err : error).                      (* next(err): the framework's error handler *)

Fixpoint assoc (k : string) (members : list (string * json)) : option json :=
  match members with
  | [] => None
  | (k', v) :: rest => if String.eqb k' k then Some v else assoc k rest
  end.

Definition member (k : string) (j : json) : option json :=
  match j with
  | JObject members => assoc k members
  | _ => None
  end.

Definition json_of_option {A : Type} (f : A -> json) (o : option A) : json :=
  match o with
  | Some a => f a
  | None => JNull
  end.

(** [res.json(user)]: every column of the row. *)
Definition User_toJSON (u : User) : json :=
  JObject
    [ ("id", JNumber (id u));
      ("email", JString (email u));
      ("password", JString (password u));
      ("createdAt", JInstant (createdAt u));
      ("isGoogleUser", JBool (isGoogleUser u));
      ("resetToken", json_of_option JString (resetToken u));
      ("resetTokenExpiry", json_of_option JInstant (resetTokenExpiry u)) ].

Definition message_body (msg : string) : payload :=
  Json (JObject [("message", JString msg)]).

(** [req.session.passport.user]: the id [serializeUser] stored, if any. *)
Definition Session : Type := option Z.

(** The provider profile, as far as [verify] reads it:
    [profile.emails] and the [value] of each entry. *)
Record Profile : Type := mkProfile {
  emails : option (list string)
}.

(** What a passport [verify] callback hands to [done]. *)
Inductive verified : Type :=
| Done_error (err : error)
| Done_fail (info_message : string)
| Done_user (user : User).

(** ** Vocabulary of the statements *)

(** The bytes the next [randomBytes n] returns, and the world after it. *)
Definition drawn (n : nat) (w : World) : list byte := map (entropy w) (seq 0 n).

Definition after_draw (n : nat) (w : World) : World :=
  mkWorld (users w) (users_id_seq w) (journal w)
          (fun i => entropy w (n + i)%nat) (outbox w).

(** The record [hashPassword] builds from a password and the salt bytes,
    for the key derivation [kdf]. *)
Definition record_of (kdf : string -> string -> nat -> list byte)
           (pw : string) (saltBytes : list byte) : string :=
  toString_hex (kdf pw (toString_hex saltBytes) 64%nat) ++ "." ++ toString_hex saltBytes.

(** ** A concrete deployment

    Stand-ins for what the libraries decide, used to run the handlers on
    concrete requests: a key derivation that pads password and salt to the
    requested length, an e-mail test that looks for an at-sign, and a
    development environment on localhost. *)

Definition demo_scrypt (pw salt : string) (keylen : nat) : list byte :=
  firstn keylen
    (list_byte_of_string pw ++ list_byte_of_string salt ++ repeat x00 keylen)%list.

Definition demo_isEmail (s : string) : bool :=
  existsb (Ascii.eqb "@") (list_ascii_of_string s).

Definition demo_message (e : error) : string :=
  match e with
  | ERR_INVALID_ARG_TYPE => "The salt argument must be of type string"
  | ERR_CRYPTO_TIMING_SAFE_EQUAL_LENGTH => "Input buffers must have the same byte length"
  | ZodError _ => "Validation failed"
  | UniqueViolation c => "duplicate key value violates unique constraint " ++ c
  | NoEmailFromGoogle => "No email provided from Google"
  end.

Definition demo_send (to resetLink : string) : bool := true.

(** A generator that counts 0, 1, 2, ... *)
Definition demo_entropy (i : nat) : byte := byte_of_N (N.of_nat i mod 256).

(** An empty database, as created by the schema. *)
Definition world0 : World := mkWorld [] 1 [] demo_entropy [].

(** Alice registered at instant 1000 with the password "Aa1!aaaa" and then
    asked for a reset: her row carries the token "c0ffee", good until
    instant 5000. *)
Definition alice_record : string := record_of demo_scrypt "Aa1!aaaa" (drawn 16 world0).

Definition alice : User :=
  mkUser 1 "a@x.com" alice_record 1000 false (Some "c0ffee") (Some 5000).

Definition world_alice : World := mkWorld [alice] 2 [] demo_entropy [].

Definition reset_body (token pw : string) : Body := mkBody None (Some pw) (Some token).

Definition credentials (e pw : string) : Body := mkBody (Some e) (Some pw) None.

(** Mallory's row was written by hand: its password column is no record of
    [hashPassword]. *)
Definition mallory : User :=
  mkUser 7 "m@x.com" "plaintext-password" 0 false None None.

Definition world_mallory : World := mkWorld [mallory] 8 [] demo_entropy [].

(** ** server/auth.ts *)

Section Auth.

(** [crypto.scrypt(password, salt, keylen)] *)
Variable scrypt : string -> string -> nat -> list byte.

(** zod's [z.string().email()] test *)
Variable isEmail : string -> bool.

(** [error.message], whose text zod, node and the database driver choose *)
Variable message : error -> string.

(** [mailService.send] went through ([true]) or threw ([false]) *)
Variable mailService_send : string -> string -> bool.

(** [app.get("env") === "production"], [process.env.REPL_SLUG] and
    [process.env.REPL_OWNER] *)
Variable production : bool.
Variables REPL_SLUG REPL_OWNER : option string.

Definition truthy (v : option string) : bool :=
  match v with
  | Some s => negb (String.eqb s "")
  | None => false
  end.

Definition protocol : string := if production then "https" else "http".

Definition host : string :=
  match REPL_SLUG, REPL_OWNER with
  | Some slug, Some owner =>
      if truthy REPL_SLUG && truthy REPL_OWNER
      then slug ++ "." ++ owner ++ ".repl.co"
      else "localhost:5000"
  | _, _ => "localhost:5000"
  end.

Definition hashPassword (pw : string) : M string :=
  saltBytes <- randomBytes 16 ;;
  let salt := toString_hex saltBytes in
  let buf := scrypt pw salt 64 in
  ret (toString_hex buf ++ "." ++ salt).

Definition comparePasswords (supplied stored : string) : M bool :=
  let parts := split "." stored in
  let hashed := nth 0 parts EmptyString in
  let salt := nth_error parts 1 in
  let hashedBuf := Buffer_from_hex hashed in
  match salt with
  | None => throw ERR_INVALID_ARG_TYPE
  | Some salt =>
      let suppliedBuf := scrypt supplied salt 64 in
      lift (timingSafeEqual hashedBuf suppliedBuf)
  end.

(** The [verify] callback of the local strategy. *)
Definition LocalStrategy_verify (e pw : string) : M verified :=
  try_catch
    (user <- getUserByEmail e ;;
     match user with
     | None => ret (Done_fail "Invalid email or password")
     | Some user =>
         same <- comparePasswords pw (password user) ;;
         if same then ret (Done_user user)
         else ret (Done_fail "Invalid email or password")
     end)
    (fun err => ret (Done_error err)).

Definition insertUserSchema_parse (b : Body) : M InsertUser :=
  match body_email b, body_password b,
        (email_issues isEmail (body_email b) ++ password_issues (body_password b))%list with
  | Some e, Some p, [] => ret (mkInsertUser e p)
  | _, _, issues => throw (ZodError issues)
  end.

Definition resetPasswordSchema_parse (b : Body) : M string :=
  match body_email b, email_issues isEmail (body_email b) with
  | Some e, [] => ret e
  | _, issues => throw (ZodError issues)
  end.

Definition updatePasswordSchema_parse (b : Body) : M (string * string) :=
  match body_token b, body_password b,
        (token_issues (body_token b) ++ password_issues (body_password b))%list with
  | Some t, Some p, [] => ret (t, p)
  | _, _, issues => throw (ZodError issues)
  end.

(** [sendPasswordResetEmail]: [true] when the provider took the mail. *)
Definition sendPasswordResetEmail (to resetLink : string) : M bool :=
  fun w =>
    if mailService_send to resetLink
    then (Ok true,
          mkWorld (users w) (users_id_seq w) (journal w) (entropy w)
                  ((to, resetLink) :: outbox w))
    else (Ok false, w).

Definition ack : string :=
  "If an account exists with that email, a password reset link will be sent.".

(** [POST /api/forgot-password] at instant [now]. *)
Definition api_forgot_password (b : Body) (now : Z) : M outcome :=
  try_catch
    (e <- resetPasswordSchema_parse b ;;
     user <- getUserByEmail e ;;
     match user with
     | None => ret (Respond 200 (message_body ack))
     | Some user =>
         tokenBytes <- randomBytes 32 ;;
         let token := toString_hex tokenBytes in
         (* expiry.setHours(expiry.getHours() + 1): one hour later *)
         let expiry := now + 3600000 in
         _ <- setResetToken (id user) token expiry ;;
         let resetLink :=
           protocol ++ "://" ++ host ++ "/auth/reset-password?token=" ++ token in
         emailSent <- sendPasswordResetEmail e resetLink ;;
         ret (Respond 200
                (Json (JObject
                   [ ("message", JString ack);
                     ("debug", JObject [("resetLink", JString resetLink)]) ])))
     end)
    (fun err => ret (Respond 400 (message_body (message err)))).

(** [new Date(user.resetTokenExpiry!)]: a null column reads as the epoch. *)
Definition expiry_of (u : User) : Z :=
  match resetTokenExpiry u with
  | Some t => t
  | None => 0
  end.

(** [POST /api/reset-password] at instant [now]. *)
Definition api_reset_password (b : Body) (now : Z) : M outcome :=
  try_catch
    (tp <- updatePasswordSchema_parse b ;;
     let token := fst tp in
     let pw := snd tp in
     user <- getUserByResetToken token ;;
     match user with
     | None => ret (Respond 400 (message_body "Invalid or expired reset token"))
     | Some user =>
         let expiry := expiry_of user in
         if (expiry <? now)%Z
         then ret (Respond 400 (message_body "Reset token has expired"))
         else
           hashedPassword <- hashPassword pw ;;
           _ <- updatePassword (id user) hashedPassword ;;
           ret (Respond 200 (message_body "Password updated successfully"))
     end)
    (fun err => ret (Respond 400 (message_body (message err)))).

(** The [verify] callback of the Google strategy. *)
Definition GoogleStrategy_verify (profile : Profile) (now : Z) : M verified :=
  try_catch
    (match emails profile with
     | Some (e :: _) =>
         if String.eqb e "" then ret (Done_error NoEmailFromGoogle)
         else
           user <- getUserByEmail e ;;
           match user with
           | Some user => ret (Done_user user)
           | None =>
               plain <- randomBytes 32 ;;
               hashed <- hashPassword (toString_hex plain) ;;
               user <- createUser (mkInsertUser e hashed) now ;;
               ret (Done_user user)
           end
     | _ => ret (Done_error NoEmailFromGoogle)
     end)
    (fun err => ret (Done_error err)).

(** [passport.serializeUser] and [req.login]: the session keeps the id. *)
Definition serializeUser (u : User) : Session := Some (id u).

(** [passport.deserializeUser], run by [passport.session()] on every
    request: [req.user] and the session as it leaves the middleware. *)
Definition deserializeUser (session : Session) : M (option User * Session) :=
  match session with
  | None => ret (None, None)
  | Some userId =>
      user <- getUser userId ;;
      match user with
      | Some u => ret (Some u, session)
      | None => ret (None, None)
      end
  end.

(** [POST /api/register] at instant [now]. *)
Definition api_register (b : Body) (now : Z) (session : Session) : M (outcome * Session) :=
  try_catch
    (validatedData <- insertUserSchema_parse b ;;
     existingUser <- getUserByEmail (insert_email validatedData) ;;
     match existingUser with
     | Some _ => ret (Respond 400 (message_body "Email already registered"), session)
     | None =>
         hashed <- hashPassword (insert_password validatedData) ;;
         user <- createUser (mkInsertUser (insert_email validatedData) hashed) now ;;
         ret (Respond 201 (Json (User_toJSON user)), serializeUser user)
     end)
    (fun err => ret (Respond 400 (message_body (message err)), session)).

(** [POST /api/login].  passport-local answers "Missing credentials" by
    itself when a field is missing or empty, before [verify] runs. *)
Definition api_login (b : Body) (session : Session) : M (outcome * Session) :=
  if truthy (body_email b) && truthy (body_password b) then
    match body_email b, body_password b with
    | Some e, Some pw =>
        v <- LocalStrategy_verify e pw ;;
        match v with
        | Done_error err => ret (Next err, session)
        | Done_fail info =>
            ret (Respond 401
                   (message_body (if String.eqb info "" then "Invalid credentials" else info)),
                 session)
        | Done_user user =>
            ret (Respond 200 (Json (User_toJSON user)), serializeUser user)
        end
    | _, _ => ret (Respond 401 (message_body "Missing credentials"), session)
    end
  else ret (Respond 401 (message_body "Missing credentials"), session).

(** [POST /api/logout] *)
Definition api_logout (session : Session) : M (outcome * Session) :=
  ret (Respond 200 (Text "OK"), None).

(** [GET /api/user] *)
Definition api_user (session : Session) : M (outcome * Session) :=
  us <- deserializeUser session ;;
  match fst us with
  | None => ret (Respond 401 (Text "Unauthorized"), snd us)
  | Some user => ret (Respond 200 (Json (User_toJSON user)), snd us)
  end.

(** [GET /api/auth/google/callback], once the provider returned [profile]. *)
Definition api_auth_google_callback (profile : Profile) (now : Z) (session : Session)
  : M (outcome * Session) :=
  v <- GoogleStrategy_verify profile now ;;
  match v with
  | Done_error err => ret (Next err, session)
  | Done_fail _ => ret (Redirect "/auth?error=google-auth-failed", session)
  | Done_user user => ret (Redirect "/", serializeUser user)
  end.

(** *** Vocabulary of the statements below *)

(** No character of [s] is [sep]. *)
Fixpoint free_of (sep : ascii) (s : string) : bool :=
  match s with
  | EmptyString => true
  | String c rest => negb (Ascii.eqb c sep) && free_of sep rest
  end.

(** The world a successful [POST /api/reset-password] for [u] leaves. *)
Definition reset_world (u : User) (pw : string) (w : World) : World :=
  let stmt := UpdatePassword_stmt (id u) (record_of scrypt pw (drawn 16 w)) in
  mkWorld (exec stmt (users w)) (users_id_seq w) (stmt :: journal w)
          (fun i => entropy w (16 + i)%nat) (outbox w).

(** The row [createUser] builds in world [w], and the world it leaves. *)
Definition new_row (w : World) (e hashed : string) (now : Z) : User :=
  mkUser (users_id_seq w) e hashed now false None None.

Definition inserted (row : User) (w : World) : World :=
  mkWorld (users w ++ [row])%list (users_id_seq w + 1)
          (InsertUser_stmt row :: journal w) (entropy w) (outbox w).

(** The body passes [baseUserSchema.shape.password]. *)
Definition password_ok (pw : string) : Prop := password_issues (Some pw) = [].

(** The row [u] is in the table and carries [token]. *)
Definition holds_token (w : World) (u : User) (token : string) : Prop :=
  In u (users w) /\ resetToken u = Some token.

(** The serial column did its work: ids are distinct and below the
    sequence. *)
Definition ids_fresh (w : World) : Prop :=
  Forall (fun u => id u < users_id_seq w) (users w).


(** The constraints of the [users] table: every id came from the sequence,
    and the primary key and the unique e-mail column hold. *)
Definition store_ok (w : World) : Prop :=
  ids_fresh w /\ NoDup (map id (users w)) /\ NoDup (map email (users w)).

(** The computation [m] keeps the property [P] of the world, also when it
    throws. *)
Definition keeps {A : Type} (P : World -> Prop) (m : M A) : Prop :=
  forall w : World, P w -> P (snd (m w)).

(** One request to the server, with the instant it arrives at and the
    session of the client that sends it. *)
Inductive request : Type :=
| Post_register (b : Body) (now : Z) (session : Session)
| Post_login (b : Body) (session : Session)
| Post_logout (session : Session)
| Get_user (session : Session)
| Post_forgot_password (b : Body) (now : Z)
| Post_reset_password (b : Body) (now : Z)
| Get_google_callback (profile : Profile) (now : Z) (session : Session).

(** The world after the server handled a request. *)
Definition serve (r : request) (w : World) : World :=
  match r with
  | Post_register b now session => snd (api_register b now session w)
  | Post_login b session => snd (api_login b session w)
  | Post_logout session => snd (api_logout session w)
  | Get_user session => snd (api_user session w)
  | Post_forgot_password b now => snd (api_forgot_password b now w)
  | Post_reset_password b now => snd (api_reset_password b now w)
  | Get_google_callback profile now session =>
      snd (api_auth_google_callback profile now session w)
  end.

Definition serve_all (requests : list request) (w : World) : World :=
  fold_left (fun w r => serve r w) requests w.

(** A freshly created database: no row, the sequence at 1. *)
Definition empty_world (source : nat -> byte) : World := mkWorld [] 1 [] source [].

(** The link [POST /api/forgot-password] builds around a token, and the
    world the handler leaves when it issued one for the row [u] found under
    the e-mail [e]. *)
Definition reset_link (token : string) : string :=
  protocol ++ "://" ++ host ++ "/auth/reset-password?token=" ++ token.

Definition forgot_world (e : string) (u : User) (now : Z) (w : World) : World :=
  let token := toString_hex (drawn 32 w) in
  let stmt := SetResetToken_stmt (id u) token (now + 3600000) in
  mkWorld (exec stmt (users w)) (users_id_seq w) (stmt :: journal w)
          (fun i => entropy w (32 + i)%nat)
          (if mailService_send e (reset_link token)
           then (e, reset_link token) :: outbox w
           else outbox w).

(** Token and expiry go together: a row has both or neither. *)
Definition paired (w : World) : Prop :=
  Forall (fun u => resetToken u = None <-> resetTokenExpiry u = None) (users w).

(** The contract of [crypto.scrypt]: the derived key has the requested
    length. *)
Hypothesis scrypt_length :
  forall (pw salt : string) (keylen : nat), List.length (scrypt pw salt keylen) = keylen.

(** ** Facts about the encoding *)

Lemma byte_of_N_nibbles (b : byte) :
  byte_of_N (16 * (Byte.to_N b / 16) + Byte.to_N b mod 16) = b.
Proof. destruct b; reflexivity. Qed.

Lemma unhex_high (b : byte) :
  unhex (hexDigit (Byte.to_N b / 16)) = Some (Byte.to_N b / 16)%N.
Proof. destruct b; reflexivity. Qed.

Lemma unhex_low (b : byte) :
  unhex (hexDigit (Byte.to_N b mod 16)) = Some (Byte.to_N b mod 16)%N.
Proof. destruct b; reflexivity. Qed.

Lemma Buffer_from_hex_toString (buf : list byte) :
  Buffer_from_hex (toString_hex buf) = buf.
Proof.
  induction buf as [|b rest IH]; [reflexivity|].
  cbn [toString_hex Buffer_from_hex].
  rewrite unhex_high, unhex_low, byte_of_N_nibbles, IH.
  reflexivity.
Qed.

Lemma length_toString_hex (buf : list byte) :
  String.length (toString_hex buf) = (2 * List.length buf)%nat.
Proof.
  induction buf as [|b rest IH]; cbn [toString_hex String.length List.length]; lia.
Qed.

Lemma hexDigit_high_not_dot (b : byte) :
  Ascii.eqb (hexDigit (Byte.to_N b / 16)) "." = false.
Proof. destruct b; reflexivity. Qed.

Lemma hexDigit_low_not_dot (b : byte) :
  Ascii.eqb (hexDigit (Byte.to_N b mod 16)) "." = false.
Proof. destruct b; reflexivity. Qed.

Lemma toString_hex_free_of_dot (buf : list byte) :
  free_of "." (toString_hex buf) = true.
Proof.
  induction buf as [|b rest IH]; [reflexivity|].
  cbn [toString_hex free_of].
  now rewrite hexDigit_high_not_dot, hexDigit_low_not_dot, IH.
Qed.

Lemma split_nonempty (sep : ascii) (s : string) : split sep s <> [].
Proof.
  destruct s as [|c rest]; cbn [split]; [discriminate|].
  destruct (Ascii.eqb c sep); [discriminate|].
  destruct (split sep rest); discriminate.
Qed.

Lemma split_free (sep : ascii) (s : string) :
  free_of sep s = true -> split sep s = [s].
Proof.
  induction s as [|c rest IH]; cbn [split free_of]; [reflexivity|].
  intros H. apply andb_prop in H as [Hc Hrest].
  apply negb_true_iff in Hc. rewrite Hc, (IH Hrest). reflexivity.
Qed.

Lemma split_app (sep : ascii) (a b : string) :
  free_of sep a = true ->
  split sep (a ++ String sep b) = a :: split sep b.
Proof.
  induction a as [|c rest IH]; cbn [split free_of String.append].
  - intros _. now rewrite Ascii.eqb_refl.
  - intros H. apply andb_prop in H as [Hc Hrest].
    apply negb_true_iff in Hc. rewrite Hc, (IH Hrest). reflexivity.
Qed.

Lemma split_record (key salt : list byte) :
  split "." (toString_hex key ++ "." ++ toString_hex salt)
  = [toString_hex key; toString_hex salt].
Proof.
  change ("." ++ toString_hex salt) with (String "." (toString_hex salt)).
  rewrite split_app by apply toString_hex_free_of_dot.
  rewrite split_free by apply toString_hex_free_of_dot.
  reflexivity.
Qed.

Lemma list_byte_eqb_refl (a : list byte) : list_byte_eqb a a = true.
Proof. unfold list_byte_eqb. destruct (list_eq_dec _ a a); congruence. Qed.

Lemma list_byte_eqb_eq (a b : list byte) : list_byte_eqb a b = true <-> a = b.
Proof.
  unfold list_byte_eqb. destruct (list_eq_dec _ a b); split; congruence.
Qed.

Lemma list_byte_eqb_neq (a b : list byte) : a <> b -> list_byte_eqb a b = false.
Proof. unfold list_byte_eqb. destruct (list_eq_dec _ a b); congruence. Qed.

Lemma split_second (sep : ascii) (s : string) :
  free_of sep s = false -> exists salt, nth_error (split sep s) 1 = Some salt.
Proof.
  induction s as [|c rest IH]; cbn [split free_of]; [discriminate|].
  destruct (Ascii.eqb c sep) eqn:Hc; cbn [negb andb].
  - intros _. pose proof (split_nonempty sep rest) as Hne.
    destruct (split sep rest) as [|hd tl]; [contradiction|].
    exists hd. reflexivity.
  - intros Hrest. destruct (IH Hrest) as [salt Hsalt].
    destruct (split sep rest) as [|hd tl]; [discriminate|].
    exists salt. exact Hsalt.
Qed.

(** ** Running the pieces *)

Lemma randomBytes_run (n : nat) (w : World) :
  randomBytes n w = (Ok (drawn n w), after_draw n w).
Proof. reflexivity. Qed.

Lemma hashPassword_run (pw : string) (w : World) :
  hashPassword pw w = (Ok (record_of scrypt pw (drawn 16 w)), after_draw 16 w).
Proof. reflexivity. Qed.

(** On a record that [hashPassword] wrote, [comparePasswords] comes down to
    [timingSafeEqual] on the two derived keys. *)
Lemma comparePasswords_record (supplied pw : string) (saltBytes : list byte) (w : World) :
  comparePasswords supplied (record_of scrypt pw saltBytes) w
  = (timingSafeEqual (scrypt pw (toString_hex saltBytes) 64)
                     (scrypt supplied (toString_hex saltBytes) 64), w).
Proof.
  unfold comparePasswords, record_of.
  rewrite split_record. cbn [nth nth_error].
  rewrite Buffer_from_hex_toString. reflexivity.
Qed.

(** ** The reset-password handler, case by case *)

Lemma updatePasswordSchema_parse_ok (e : option string) (token pw : string) (w : World) :
  password_ok pw ->
  updatePasswordSchema_parse (mkBody e (Some pw) (Some token)) w = (Ok (token, pw), w).
Proof.
  unfold password_ok, updatePasswordSchema_parse. cbn [body_token body_password token_issues].
  intros ->. reflexivity.
Qed.

Lemma api_reset_password_unknown (e : option string) (token pw : string) (now : Z) (w : World) :
  password_ok pw ->
  getUserByResetToken token w = (Ok None, w) ->
  api_reset_password (mkBody e (Some pw) (Some token)) now w
  = (Ok (Respond 400 (message_body "Invalid or expired reset token")), w).
Proof.
  intros Hpw Hnone.
  unfold api_reset_password, try_catch, bind.
  rewrite (updatePasswordSchema_parse_ok e token pw w Hpw).
  cbn [fst snd]. rewrite Hnone. reflexivity.
Qed.

Lemma api_reset_password_found (e : option string) (token pw : string) (now : Z)
      (u : User) (w : World) :
  password_ok pw ->
  getUserByResetToken token w = (Ok (Some u), w) ->
  api_reset_password (mkBody e (Some pw) (Some token)) now w
  = if (expiry_of u <? now)%Z
    then (Ok (Respond 400 (message_body "Reset token has expired")), w)
    else (Ok (Respond 200 (message_body "Password updated successfully")),
          reset_world u pw w).
Proof.
  intros Hpw Hsome.
  unfold api_reset_password, try_catch, bind.
  rewrite (updatePasswordSchema_parse_ok e token pw w Hpw).
  cbn [fst snd]. rewrite Hsome.
  destruct (expiry_of u <? now)%Z; reflexivity.
Qed.

(** The lookup by token finds the one row that carries it. *)
Lemma getUserByResetToken_unique (u : User) (token : string) (w : World) :
  holds_token w u token ->
  (forall v, holds_token w v token -> v = u) ->
  getUserByResetToken token w = (Ok (Some u), w).
Proof.
  intros [Hin Htok] Huniq. unfold getUserByResetToken. repeat f_equal.
  destruct (find _ (users w)) as [v|] eqn:Hfind.
  - apply find_some in Hfind as [Hv Heq].
    f_equal. apply Huniq. split; [exact Hv|].
    unfold option_string_eqb in Heq.
    destruct (resetToken v) as [t|]; [|discriminate].
    apply String.eqb_eq in Heq. now subst.
  - exfalso.
    pose proof (find_none _ _ Hfind u Hin) as Hno. cbn beta in Hno.
    rewrite Htok in Hno. cbn [option_string_eqb] in Hno.
    now rewrite String.eqb_refl in Hno.
Qed.

(** After [updatePassword] for its only holder, nobody carries the token. *)
Lemma token_gone_after_update (u : User) (token hashed : string) (rows : list User) :
  (forall v, In v rows -> resetToken v = Some token -> v = u) ->
  find (fun v => option_string_eqb (resetToken v) token)
       (exec (UpdatePassword_stmt (id u) hashed) rows) = None.
Proof.
  intros Huniq. cbn [exec].
  induction rows as [|r rest IH]; [reflexivity|].
  cbn [map find].
  destruct (Z.eqb (id r) (id u)) eqn:Hid.
  - cbn [resetToken option_string_eqb]. apply IH.
    intros v Hv. apply Huniq. now right.
  - destruct (option_string_eqb (resetToken r) token) eqn:Hr.
    + exfalso. unfold option_string_eqb in Hr.
      destruct (resetToken r) as [t|] eqn:Ht; [|discriminate].
      apply String.eqb_eq in Hr. subst t.
      assert (r = u) by (apply Huniq; [now left | exact Ht]).
      subst r. now rewrite Z.eqb_refl in Hid.
    + apply IH. intros v Hv. apply Huniq. now right.
Qed.

Lemma updated_rows (userId : Z) (hashed : string) (rows : list User) (v : User) :
  In v (exec (UpdatePassword_stmt userId hashed) rows) ->
  id v = userId ->
  password v = hashed /\ resetToken v = None /\ resetTokenExpiry v = None.
Proof.
  cbn [exec]. intros Hin Hid.
  apply in_map_iff in Hin as [r [Hr _]].
  destruct (Z.eqb (id r) userId) eqn:Heq.
  - subst v. cbn. auto.
  - subst v. apply Z.eqb_neq in Heq. contradiction.
Qed.

Lemma row_survives_update (u : User) (hashed : string) (rows : list User) :
  In u rows ->
  In (mkUser (id u) (email u) hashed (createdAt u) (isGoogleUser u) None None)
     (exec (UpdatePassword_stmt (id u) hashed) rows).
Proof.
  intros Hin. cbn [exec]. apply in_map_iff. exists u.
  rewrite Z.eqb_refl. auto.
Qed.

(** ** Lookups and inserts *)

Lemma getUserByEmail_exact (e : string) (u : User) (w : World) :
  getUserByEmail e w = (Ok (Some u), w) -> In u (users w) /\ email u = e.
Proof.
  unfold getUserByEmail. intros H. injection H as H.
  apply find_some in H as [Hin Heq]. apply String.eqb_eq in Heq. auto.
Qed.

Lemma find_id_fresh (w : World) :
  ids_fresh w -> find (fun u => Z.eqb (id u) (users_id_seq w)) (users w) = None.
Proof.
  unfold ids_fresh. intros Hfresh.
  induction Hfresh as [|r rest Hr _ IH]; [reflexivity|].
  cbn [find]. replace (Z.eqb (id r) (users_id_seq w)) with false; [exact IH|].
  symmetry. apply Z.eqb_neq. lia.
Qed.

Lemma find_app_last {A : Type} (f : A -> bool) (l : list A) (a : A) :
  find f l = None -> f a = true -> find f (l ++ [a]) = Some a.
Proof.
  induction l as [|x rest IH]; cbn [find app]; intros Hnone Ha.
  - now rewrite Ha.
  - destruct (f x); [discriminate|]. now apply IH.
Qed.

Lemma createUser_run (e hashed : string) (now : Z) (w : World) :
  ids_fresh w ->
  getUserByEmail e w = (Ok None, w) ->
  createUser (mkInsertUser e hashed) now w
  = (Ok (new_row w e hashed now), inserted (new_row w e hashed now) w).
Proof.
  intros Hfresh Hfree. unfold getUserByEmail in Hfree. injection Hfree as Hfree.
  unfold createUser, bind, nextval, getUser, getUserByEmail.
  cbn [users insert_email insert_password].
  rewrite (find_id_fresh w Hfresh), Hfree. reflexivity.
Qed.

Lemma ids_fresh_inserted (e hashed : string) (now : Z) (w : World) :
  ids_fresh w -> ids_fresh (inserted (new_row w e hashed now) w).
Proof.
  unfold ids_fresh, inserted, new_row. cbn [users users_id_seq].
  intros Hfresh. apply Forall_app. split.
  - eapply Forall_impl; [|exact Hfresh]. cbn beta. intros; lia.
  - constructor; [cbn; lia | constructor].
Qed.

Lemma getUser_inserted (e hashed : string) (now : Z) (w : World) :
  ids_fresh w ->
  let u := new_row w e hashed now in
  getUser (id u) (inserted u w) = (Ok (Some u), inserted u w).
Proof.
  intros Hfresh u. unfold getUser. repeat f_equal.
  cbn [inserted users]. apply find_app_last.
  - exact (find_id_fresh w Hfresh).
  - cbn. apply Z.eqb_refl.
Qed.

Lemma getUserByEmail_inserted (e hashed : string) (now : Z) (w : World) :
  getUserByEmail e w = (Ok None, w) ->
  let u := new_row w e hashed now in
  getUserByEmail e (inserted u w) = (Ok (Some u), inserted u w).
Proof.
  intros Hfree u. unfold getUserByEmail in *. injection Hfree as Hfree.
  repeat f_equal. cbn [inserted users]. apply find_app_last; [exact Hfree|].
  cbn. apply String.eqb_refl.
Qed.

(** ** The handlers on well-formed requests *)

Lemma insertUserSchema_parse_ok (e pw : string) (t : option string) (w : World) :
  isEmail e = true -> password_ok pw ->
  insertUserSchema_parse (mkBody (Some e) (Some pw) t) w = (Ok (mkInsertUser e pw), w).
Proof.
  unfold password_ok, insertUserSchema_parse.
  cbn [body_email body_password email_issues].
  intros -> ->. reflexivity.
Qed.

Lemma api_register_ok (e pw : string) (t : option string) (now : Z)
      (session : Session) (w : World) :
  isEmail e = true -> password_ok pw ->
  getUserByEmail e w = (Ok None, w) ->
  ids_fresh w ->
  let u := new_row w e (record_of scrypt pw (drawn 16 w)) now in
  api_register (mkBody (Some e) (Some pw) t) now session w
  = (Ok (Respond 201 (Json (User_toJSON u)), Some (id u)),
     inserted u (after_draw 16 w)).
Proof.
  intros Hmail Hpw Hfree Hfresh u.
  unfold api_register, try_catch, bind.
  rewrite (insertUserSchema_parse_ok e pw t w Hmail Hpw).
  cbn [insert_email insert_password]. rewrite Hfree, hashPassword_run.
  rewrite (createUser_run e (record_of scrypt pw (drawn 16 w)) now (after_draw 16 w)).
  - reflexivity.
  - exact Hfresh.
  - unfold getUserByEmail in *. injection Hfree as Hfree. cbn [after_draw users].
    now rewrite Hfree.
Qed.

Lemma truthy_Some (s : string) : s <> "" -> truthy (Some s) = true.
Proof.
  intros Hs. cbn [truthy]. apply negb_true_iff. now apply String.eqb_neq.
Qed.

Lemma LocalStrategy_verify_ok (e pw : string) (saltBytes : list byte) (u : User) (w : World) :
  getUserByEmail e w = (Ok (Some u), w) ->
  password u = record_of scrypt pw saltBytes ->
  LocalStrategy_verify e pw w = (Ok (Done_user u), w).
Proof.
  intros Hfind Hrec. unfold LocalStrategy_verify, try_catch, bind.
  rewrite Hfind, Hrec, comparePasswords_record. unfold timingSafeEqual.
  now rewrite Nat.eqb_refl, list_byte_eqb_refl.
Qed.

Lemma LocalStrategy_verify_unknown (e pw : string) (w : World) :
  getUserByEmail e w = (Ok None, w) ->
  LocalStrategy_verify e pw w = (Ok (Done_fail "Invalid email or password"), w).
Proof.
  intros Hfind. unfold LocalStrategy_verify, try_catch, bind.
  now rewrite Hfind.
Qed.

Lemma LocalStrategy_verify_wrong (e pw pw' : string) (saltBytes : list byte)
      (u : User) (w : World) :
  getUserByEmail e w = (Ok (Some u), w) ->
  password u = record_of scrypt pw saltBytes ->
  scrypt pw' (toString_hex saltBytes) 64 <> scrypt pw (toString_hex saltBytes) 64 ->
  LocalStrategy_verify e pw' w = (Ok (Done_fail "Invalid email or password"), w).
Proof.
  intros Hfind Hrec Hkeys. unfold LocalStrategy_verify, try_catch, bind.
  rewrite Hfind, Hrec, comparePasswords_record. unfold timingSafeEqual.
  rewrite !scrypt_length, Nat.eqb_refl.
  rewrite list_byte_eqb_neq; [reflexivity|].
  intros Heq. apply Hkeys. symmetry. exact Heq.
Qed.

(** ** Password reset *)

(** C1.  A user holds a reset token that no other row carries and that has
    not run out at instant [now]; the body carries that token and a password
    the schema accepts.  Then the first confirm answers 200, it sends the
    database exactly one statement, the [UPDATE] of [updatePassword], and
    that one statement both stores the new hash and clears token and expiry
    in every row it touches (the user's row is among them); the new record
    verifies the new password; and any later confirm with the same token, at
    any instant and with any acceptable password, answers 400 "Invalid or
    expired reset token" and leaves the world as it is. *)
Theorem reset_confirm_succeeds_once
        (u : User) (token pw : string) (E now : Z) (e : option string) (w : World) :
  holds_token w u token ->
  (forall v, holds_token w v token -> v = u) ->
  resetTokenExpiry u = Some E ->
  now <= E ->
  password_ok pw ->
  let hashed := record_of scrypt pw (drawn 16 w) in
  let w' := reset_world u pw w in
  api_reset_password (mkBody e (Some pw) (Some token)) now w
    = (Ok (Respond 200 (message_body "Password updated successfully")), w')
  /\ journal w' = UpdatePassword_stmt (id u) hashed :: journal w
  /\ users w' = exec (UpdatePassword_stmt (id u) hashed) (users w)
  /\ (exists u', In u' (users w') /\ id u' = id u /\ email u' = email u)
  /\ (forall v, In v (users w') -> id v = id u ->
        password v = hashed /\ resetToken v = None /\ resetTokenExpiry v = None)
  /\ (forall w2, comparePasswords pw hashed w2 = (Ok true, w2))
  /\ (forall (pw2 : string) (now2 : Z) (e2 : option string),
        password_ok pw2 ->
        api_reset_password (mkBody e2 (Some pw2) (Some token)) now2 w'
        = (Ok (Respond 400 (message_body "Invalid or expired reset token")), w')).
Proof.
  intros Hholds Huniq Hexp Hnow Hpw hashed w'.
  pose proof (getUserByResetToken_unique u token w Hholds Huniq) as Hfind.
  assert (Hlive : (expiry_of u <? now)%Z = false)
    by (unfold expiry_of; rewrite Hexp; apply Z.ltb_ge; exact Hnow).
  split.
  { rewrite (api_reset_password_found e token pw now u w Hpw Hfind).
    now rewrite Hlive. }
  split; [reflexivity|].
  split; [reflexivity|].
  split.
  { eexists. split; [apply row_survives_update; apply Hholds|]. split; reflexivity. }
  split.
  { intros v Hv Hid. exact (updated_rows (id u) hashed (users w) v Hv Hid). }
  split.
  { intros w2. unfold hashed. rewrite comparePasswords_record.
    unfold timingSafeEqual. now rewrite Nat.eqb_refl, list_byte_eqb_refl. }
  intros pw2 now2 e2 Hpw2.
  apply api_reset_password_unknown; [exact Hpw2|].
  unfold getUserByResetToken. repeat f_equal.
  apply token_gone_after_update.
  intros v Hv Htok. apply Huniq. split; assumption.
Qed.

(** C3, as the code has it.  The handler compares [expiry < now]: for a
    token found in the table with expiry [E] and an acceptable password, the
    confirm is refused as expired exactly when [E < now]; at [now = E] and
    at every earlier instant it is accepted. *)
Theorem reset_token_valid_through_expiry
        (u : User) (token pw : string) (E now : Z) (e : option string) (w : World) :
  getUserByResetToken token w = (Ok (Some u), w) ->
  resetTokenExpiry u = Some E ->
  password_ok pw ->
  (now <= E ->
     api_reset_password (mkBody e (Some pw) (Some token)) now w
     = (Ok (Respond 200 (message_body "Password updated successfully")),
        reset_world u pw w))
  /\ (E < now ->
     api_reset_password (mkBody e (Some pw) (Some token)) now w
     = (Ok (Respond 400 (message_body "Reset token has expired")), w)).
Proof.
  intros Hfind Hexp Hpw.
  rewrite (api_reset_password_found e token pw now u w Hpw Hfind).
  unfold expiry_of. rewrite Hexp.
  split; intros Hcmp.
  - apply Z.ltb_ge in Hcmp. now rewrite Hcmp.
  - apply Z.ltb_lt in Hcmp. now rewrite Hcmp.
Qed.

(** C8, as the code has it.  Both failures of the confirm answer 400, but
    with two different messages: "Invalid or expired reset token" when no
    row carries the token, "Reset token has expired" when a row carries it
    and its expiry lies before [now]. *)
Theorem reset_failure_messages
        (u : User) (known unknown pw : string) (E now : Z) (e : option string) (w : World) :
  getUserByResetToken unknown w = (Ok None, w) ->
  getUserByResetToken known w = (Ok (Some u), w) ->
  resetTokenExpiry u = Some E ->
  E < now ->
  password_ok pw ->
  api_reset_password (mkBody e (Some pw) (Some unknown)) now w
    = (Ok (Respond 400 (message_body "Invalid or expired reset token")), w)
  /\ api_reset_password (mkBody e (Some pw) (Some known)) now w
    = (Ok (Respond 400 (message_body "Reset token has expired")), w).
Proof.
  intros Hnone Hsome Hexp Hlate Hpw. split.
  - exact (api_reset_password_unknown e unknown pw now w Hpw Hnone).
  - rewrite (api_reset_password_found e known pw now u w Hpw Hsome).
    unfold expiry_of. rewrite Hexp.
    apply Z.ltb_lt in Hlate. now rewrite Hlate.
Qed.

(** ** Password records *)

(** C2.  Whatever salt the generator hands out, the record [hashPassword]
    returns for [p2] verifies [p2]; and for another password [p1] the
    comparison answers [false] unless scrypt derives the same key from [p1]
    and [p2] under that salt, which is the event the spec calls of
    negligible probability. *)
Theorem hash_then_compare (p1 p2 : string) (w w2 : World) :
  exists (h : string) (w' : World),
    hashPassword p2 w = (Ok h, w')
    /\ comparePasswords p2 h w2 = (Ok true, w2)
    /\ (scrypt p1 (toString_hex (drawn 16 w)) 64 <> scrypt p2 (toString_hex (drawn 16 w)) 64 ->
        comparePasswords p1 h w2 = (Ok false, w2)).
Proof.
  exists (record_of scrypt p2 (drawn 16 w)), (after_draw 16 w).
  split; [apply hashPassword_run|].
  split.
  - rewrite comparePasswords_record. unfold timingSafeEqual.
    now rewrite Nat.eqb_refl, list_byte_eqb_refl.
  - intros Hkeys. rewrite comparePasswords_record. unfold timingSafeEqual.
    rewrite !scrypt_length, Nat.eqb_refl.
    rewrite list_byte_eqb_neq; [reflexivity|].
    intros Heq. apply Hkeys. symmetry. exact Heq.
Qed.

(** C7, as the code has it.  [comparePasswords] has three outcomes.  A
    stored string without a dot leaves the salt undefined and scrypt throws
    a TypeError.  With a dot, the part before the first dot is read as hex
    up to its first non-hex pair; when that gives anything but 64 bytes
    [timingSafeEqual] throws a RangeError.  Only when it gives 64 bytes does
    the function return a boolean: whether those bytes are the derived
    key. *)
Theorem comparePasswords_outcomes (supplied stored : string) (w : World) :
  let key := Buffer_from_hex (nth 0 (split "." stored) EmptyString) in
  (free_of "." stored = true ->
     comparePasswords supplied stored w = (Throw ERR_INVALID_ARG_TYPE, w))
  /\ (free_of "." stored = false -> List.length key <> 64%nat ->
     comparePasswords supplied stored w = (Throw ERR_CRYPTO_TIMING_SAFE_EQUAL_LENGTH, w))
  /\ (free_of "." stored = false -> List.length key = 64%nat ->
     exists salt, nth_error (split "." stored) 1 = Some salt
       /\ comparePasswords supplied stored w
          = (Ok (list_byte_eqb key (scrypt supplied salt 64)), w)).
Proof.
  intros key. unfold comparePasswords. fold key.
  split; [|split].
  - intros Hfree. rewrite (split_free "." stored Hfree). reflexivity.
  - intros Hdot Hlen. destruct (split_second "." stored Hdot) as [salt Hsalt].
    rewrite Hsalt. unfold lift, timingSafeEqual.
    rewrite scrypt_length.
    apply Nat.eqb_neq in Hlen. now rewrite Hlen.
  - intros Hdot Hlen. destruct (split_second "." stored Hdot) as [salt Hsalt].
    exists salt. split; [exact Hsalt|].
    rewrite Hsalt. unfold lift, timingSafeEqual.
    now rewrite scrypt_length, Hlen.
Qed.

(** ** Local login *)

(** C9, as the code has it.  The local strategy hands the submitted e-mail
    to [getUserByEmail] unchanged, and the lookup compares it for equality
    with the stored column: the row found carries exactly the submitted
    string.  So a user whose record was written by [hashPassword] logs in
    with the right password when the e-mail is submitted as stored; an
    e-mail that matches no row, and a password that derives another key,
    both get the one message "Invalid email or password". *)
Theorem local_login_exact_email
        (u : User) (pw : string) (saltBytes : list byte) (w : World) :
  getUserByEmail (email u) w = (Ok (Some u), w) ->
  password u = record_of scrypt pw saltBytes ->
  LocalStrategy_verify (email u) pw w = (Ok (Done_user u), w)
  /\ (forall (e' : string) (v : User),
        getUserByEmail e' w = (Ok (Some v), w) -> email v = e')
  /\ (forall e' pw' : string,
        getUserByEmail e' w = (Ok None, w) ->
        LocalStrategy_verify e' pw' w = (Ok (Done_fail "Invalid email or password"), w))
  /\ (forall pw' : string,
        scrypt pw' (toString_hex saltBytes) 64 <> scrypt pw (toString_hex saltBytes) 64 ->
        LocalStrategy_verify (email u) pw' w
        = (Ok (Done_fail "Invalid email or password"), w)).
Proof.
  intros Hfind Hrec. split; [|split; [|split]].
  - exact (LocalStrategy_verify_ok (email u) pw saltBytes u w Hfind Hrec).
  - intros e' v Hv. exact (proj2 (getUserByEmail_exact e' v w Hv)).
  - intros e' pw' Hnone. exact (LocalStrategy_verify_unknown e' pw' w Hnone).
  - intros pw' Hkeys.
    exact (LocalStrategy_verify_wrong (email u) pw pw' saltBytes u w Hfind Hrec Hkeys).
Qed.

(** ** What the bodies carry *)

(** C5, as the code has it.  The three handlers answer with [res.json] of
    the row as the storage returned it, and that object has a [password]
    member holding the stored hash record: the 201 of a successful
    register, the 200 of a successful login and the 200 of current-user
    all carry it. *)
Theorem replies_carry_the_hash
        (e pw : string) (t : option string) (now : Z) (session : Session)
        (saltBytes : list byte) (u : User) (w : World) :
  isEmail e = true -> password_ok pw -> e <> "" -> pw <> "" -> ids_fresh w ->
  (forall v : User, member "password" (User_toJSON v) = Some (JString (password v)))
  /\ (getUserByEmail e w = (Ok None, w) ->
      exists (r : User) (w' : World),
        api_register (mkBody (Some e) (Some pw) t) now session w
        = (Ok (Respond 201 (Json (User_toJSON r)), Some (id r)), w')
        /\ getUserByEmail e w' = (Ok (Some r), w')
        /\ password r = record_of scrypt pw (drawn 16 w))
  /\ (getUserByEmail e w = (Ok (Some u), w) ->
      password u = record_of scrypt pw saltBytes ->
      api_login (mkBody (Some e) (Some pw) t) session w
      = (Ok (Respond 200 (Json (User_toJSON u)), Some (id u)), w))
  /\ (getUser (id u) w = (Ok (Some u), w) ->
      api_user (Some (id u)) w
      = (Ok (Respond 200 (Json (User_toJSON u)), Some (id u)), w)).
Proof.
  intros Hmail Hpw He Hpwne Hfresh. split; [|split; [|split]].
  - intros v. reflexivity.
  - intros Hfree.
    exists (new_row w e (record_of scrypt pw (drawn 16 w)) now).
    exists (inserted (new_row w e (record_of scrypt pw (drawn 16 w)) now) (after_draw 16 w)).
    split; [exact (api_register_ok e pw t now session w Hmail Hpw Hfree Hfresh)|].
    split; [|reflexivity].
    apply (getUserByEmail_inserted e (record_of scrypt pw (drawn 16 w)) now (after_draw 16 w)).
    unfold getUserByEmail in *. injection Hfree as Hfree. cbn [after_draw users].
    now rewrite Hfree.
  - intros Hfind Hrec. unfold api_login. cbn [body_email body_password].
    rewrite (truthy_Some e He), (truthy_Some pw Hpwne). cbn [andb].
    unfold bind.
    now rewrite (LocalStrategy_verify_ok e pw saltBytes u w Hfind Hrec).
  - intros Hget. unfold api_user, deserializeUser, bind.
    now rewrite Hget.
Qed.

(** ** Sessions *)

(** C10.  A register that succeeds (a body the schema accepts, an e-mail
    not yet in the table) logs the new user in before it answers 201: the
    session it leaves holds the new id, and current-user asked with that
    session answers 200 with the same identity. *)
Theorem register_then_current_user
        (e pw : string) (t : option string) (now : Z) (session : Session) (w : World) :
  isEmail e = true -> password_ok pw ->
  getUserByEmail e w = (Ok None, w) ->
  ids_fresh w ->
  exists (u : User) (session' : Session) (w' : World),
    api_register (mkBody (Some e) (Some pw) t) now session w
    = (Ok (Respond 201 (Json (User_toJSON u)), session'), w')
    /\ email u = e
    /\ session' = Some (id u)
    /\ api_user session' w' = (Ok (Respond 200 (Json (User_toJSON u)), session'), w').
Proof.
  intros Hmail Hpw Hfree Hfresh.
  set (u := new_row w e (record_of scrypt pw (drawn 16 w)) now).
  exists u, (Some (id u)), (inserted u (after_draw 16 w)).
  split; [exact (api_register_ok e pw t now session w Hmail Hpw Hfree Hfresh)|].
  split; [reflexivity|]. split; [reflexivity|].
  unfold api_user, deserializeUser, bind.
  assert (Hfresh' : ids_fresh (after_draw 16 w)) by exact Hfresh.
  pose proof (getUser_inserted e (record_of scrypt pw (drawn 16 w)) now (after_draw 16 w) Hfresh')
    as Hget.
  change (getUser (id u) (inserted u (after_draw 16 w))
          = (Ok (Some u), inserted u (after_draw 16 w))) in Hget.
  rewrite Hget. reflexivity.
Qed.

(** ** Federated login *)

(** C6, what the code does.  A first Google login for an e-mail that is
    not in the table creates exactly one row, appended to the table, with a
    hash record of 32 random bytes nobody keeps; a second login with that
    e-mail returns the same row and writes nothing.  But the row goes
    through [createUser], which sets [isGoogleUser: false] on every row it
    builds, so the new identity is not flagged as a Google account. *)
Theorem google_login_creates_unflagged_user
        (e : string) (others : list string) (now : Z) (w : World) :
  e <> "" ->
  getUserByEmail e w = (Ok None, w) ->
  ids_fresh w ->
  let plain := toString_hex (drawn 32 w) in
  let w1 := after_draw 32 w in
  let u := new_row w e (record_of scrypt plain (drawn 16 w1)) now in
  let w' := inserted u (after_draw 16 w1) in
  GoogleStrategy_verify (mkProfile (Some (e :: others))) now w = (Ok (Done_user u), w')
  /\ users w' = (users w ++ [u])%list
  /\ journal w' = InsertUser_stmt u :: journal w
  /\ isGoogleUser u = false
  /\ (forall (now2 : Z) (others2 : list string),
        GoogleStrategy_verify (mkProfile (Some (e :: others2))) now2 w'
        = (Ok (Done_user u), w')).
Proof.
  intros He Hfree Hfresh plain w1 u w'.
  set (hashed := record_of scrypt plain (drawn 16 w1)) in *.
  assert (Hne : String.eqb e "" = false) by now apply String.eqb_neq.
  assert (Hfree1 : getUserByEmail e (after_draw 16 w1) = (Ok None, after_draw 16 w1)).
  { unfold getUserByEmail in *. injection Hfree as Hfree.
    unfold w1. cbn [after_draw users]. now rewrite Hfree. }
  split.
  { unfold GoogleStrategy_verify, try_catch, bind. cbn [emails].
    rewrite Hne, Hfree, randomBytes_run, hashPassword_run.
    fold w1. fold plain. fold hashed.
    rewrite (createUser_run e hashed now (after_draw 16 w1));
      [reflexivity | exact Hfresh | exact Hfree1]. }
  split; [reflexivity|]. split; [reflexivity|]. split; [reflexivity|].
  intros now2 others2.
  pose proof (getUserByEmail_inserted e hashed now (after_draw 16 w1) Hfree1) as Hfound.
  change (getUserByEmail e w' = (Ok (Some u), w')) in Hfound.
  unfold GoogleStrategy_verify, try_catch, bind. cbn [emails].
  now rewrite Hne, Hfound.
Qed.

(** ** Asking for a reset *)

Lemma resetPasswordSchema_parse_ok (e : string) (p t : option string) (w : World) :
  isEmail e = true ->
  resetPasswordSchema_parse (mkBody (Some e) p t) w = (Ok e, w).
Proof.
  unfold resetPasswordSchema_parse. cbn [body_email email_issues].
  intros ->. reflexivity.
Qed.

(** C4, what the code does.  For two e-mails the schema accepts, one in the
    table and one not, forgot-password answers 200 to both, but the bodies
    differ: the unknown e-mail gets the bare acknowledgement, the registered
    one gets the acknowledgement and a [debug] member with the reset link,
    whose query string is the token just stored on the user's row. *)
Theorem forgot_password_bodies
        (known unknown : string) (p t : option string) (u : User) (now : Z) (w : World) :
  isEmail known = true -> isEmail unknown = true ->
  getUserByEmail known w = (Ok (Some u), w) ->
  getUserByEmail unknown w = (Ok None, w) ->
  let token := toString_hex (drawn 32 w) in
  let resetLink := protocol ++ "://" ++ host ++ "/auth/reset-password?token=" ++ token in
  api_forgot_password (mkBody (Some unknown) p t) now w
    = (Ok (Respond 200 (Json (JObject [("message", JString ack)]))), w)
  /\ fst (api_forgot_password (mkBody (Some known) p t) now w)
     = Ok (Respond 200
             (Json (JObject
                [ ("message", JString ack);
                  ("debug", JObject [("resetLink", JString resetLink)]) ])))
  /\ users (snd (api_forgot_password (mkBody (Some known) p t) now w))
     = exec (SetResetToken_stmt (id u) token (now + 3600000)) (users w).
Proof.
  intros Hk Hu Hfound Hnone token resetLink.
  split; [|split].
  - unfold api_forgot_password, try_catch, bind.
    now rewrite (resetPasswordSchema_parse_ok unknown p t w Hu), Hnone.
  - unfold api_forgot_password, try_catch, bind.
    rewrite (resetPasswordSchema_parse_ok known p t w Hk), Hfound, randomBytes_run.
    unfold setResetToken, execute, sendPasswordResetEmail.
    destruct (mailService_send known _); reflexivity.
  - unfold api_forgot_password, try_catch, bind.
    rewrite (resetPasswordSchema_parse_ok known p t w Hk), Hfound, randomBytes_run.
    unfold setResetToken, execute, sendPasswordResetEmail.
    destruct (mailService_send known _); reflexivity.
Qed.

(** ** The table's constraints are kept *)

Lemma keeps_ret {A : Type} (P : World -> Prop) (a : A) : keeps P (ret a).
Proof. intros w Hw. exact Hw. Qed.

Lemma keeps_throw {A : Type} (P : World -> Prop) (e : error) : keeps P (@throw A e).
Proof. intros w Hw. exact Hw. Qed.

Lemma keeps_lift {A : Type} (P : World -> Prop) (r : result A) : keeps P (lift r).
Proof. intros w Hw. exact Hw. Qed.

Lemma keeps_bind {A B : Type} (P : World -> Prop) (m : M A) (k : A -> M B) :
  keeps P m -> (forall a, keeps P (k a)) -> keeps P (bind m k).
Proof.
  intros Hm Hk w Hw. unfold bind.
  specialize (Hm w Hw). destruct (m w) as [[a|e] w1]; cbn [snd] in *.
  - exact (Hk a w1 Hm).
  - exact Hm.
Qed.

Lemma keeps_try_catch {A : Type} (P : World -> Prop) (m : M A) (h : error -> M A) :
  keeps P m -> (forall e, keeps P (h e)) -> keeps P (try_catch m h).
Proof.
  intros Hm Hh w Hw. unfold try_catch.
  specialize (Hm w Hw). destruct (m w) as [[a|e] w1]; cbn [snd] in *.
  - exact Hm.
  - exact (Hh e w1 Hm).
Qed.

(** A computation that only changes generator, journal or outbox. *)
Lemma keeps_same_table {A : Type} (m : M A) :
  (forall w, users (snd (m w)) = users w /\ users_id_seq (snd (m w)) = users_id_seq w) ->
  keeps store_ok m.
Proof.
  intros Hsame w Hw. destruct (Hsame w) as [Hu Hs].
  unfold store_ok, ids_fresh in *. rewrite Hu, Hs. exact Hw.
Qed.

Lemma map_id_update (f : User -> User) (rows : list User) :
  (forall r, id (f r) = id r) -> map id (map f rows) = map id rows.
Proof.
  intros Hf. rewrite map_map. apply map_ext. exact Hf.
Qed.

Lemma map_email_update (f : User -> User) (rows : list User) :
  (forall r, email (f r) = email r) -> map email (map f rows) = map email rows.
Proof.
  intros Hf. rewrite map_map. apply map_ext. exact Hf.
Qed.

(** An [UPDATE] of token or password touches neither id nor e-mail. *)
Lemma keeps_update (f : User -> User) (s : statement) :
  (forall rows, exec s rows = map f rows) ->
  (forall r, id (f r) = id r) -> (forall r, email (f r) = email r) ->
  keeps store_ok (execute s).
Proof.
  intros Hexec Hid Hmail w (Hfresh & Hids & Hmails).
  unfold store_ok, ids_fresh, execute. cbn [snd users users_id_seq].
  rewrite Hexec, (map_id_update f _ Hid), (map_email_update f _ Hmail).
  split; [|split; assumption].
  apply Forall_forall. intros v Hv. apply in_map_iff in Hv as [r [Hr Hin]].
  subst v. rewrite Hid. exact (proj1 (Forall_forall _ _) Hfresh r Hin).
Qed.

Lemma keeps_setResetToken (userId : Z) (token : string) (expiry : Z) :
  keeps store_ok (setResetToken userId token expiry).
Proof.
  apply (keeps_update
           (fun u => if Z.eqb (id u) userId
                     then mkUser (id u) (email u) (password u) (createdAt u)
                                 (isGoogleUser u) (Some token) (Some expiry)
                     else u)).
  - reflexivity.
  - intros r. now destruct (Z.eqb (id r) userId).
  - intros r. now destruct (Z.eqb (id r) userId).
Qed.

Lemma keeps_updatePassword (userId : Z) (hashed : string) :
  keeps store_ok (updatePassword userId hashed).
Proof.
  apply (keeps_update
           (fun u => if Z.eqb (id u) userId
                     then mkUser (id u) (email u) hashed (createdAt u)
                                 (isGoogleUser u) None None
                     else u)).
  - reflexivity.
  - intros r. now destruct (Z.eqb (id r) userId).
  - intros r. now destruct (Z.eqb (id r) userId).
Qed.

Lemma find_none_not_in {A : Type} (key : User -> A) (eqb : A -> A -> bool) (k : A)
      (rows : list User) :
  (forall a, eqb a a = true) ->
  find (fun u => eqb (key u) k) rows = None -> ~ In k (map key rows).
Proof.
  intros Hrefl Hnone Hin. apply in_map_iff in Hin as [r [Hk Hr]].
  pose proof (find_none _ _ Hnone r Hr) as Hno. cbn beta in Hno.
  rewrite Hk, Hrefl in Hno. discriminate.
Qed.

(** [createUser] inserts only a row that respects both constraints. *)
Lemma keeps_createUser (insertUser : InsertUser) (now : Z) :
  keeps store_ok (createUser insertUser now).
Proof.
  intros w (Hfresh & Hids & Hmails).
  unfold createUser, bind, nextval, getUser, getUserByEmail. cbn [users].
  assert (Hnext : store_ok (mkWorld (users w) (users_id_seq w + 1) (journal w)
                                    (entropy w) (outbox w))).
  { split; [|split; assumption]. unfold ids_fresh in *. cbn [users users_id_seq].
    eapply Forall_impl; [|exact Hfresh]. cbn beta. intros; lia. }
  destruct (find (fun u => Z.eqb (id u) (users_id_seq w)) (users w)) eqn:Hid;
    [exact Hnext|].
  destruct (find (fun u => String.eqb (email u) (insert_email insertUser)) (users w))
    eqn:Hmail; [exact Hnext|].
  unfold store_ok, ids_fresh, execute, ret. cbn [snd users users_id_seq exec].
  rewrite !map_app. cbn [map id email].
  split; [|split].
  - apply Forall_app. split.
    + eapply Forall_impl; [|exact Hfresh]. cbn beta. intros; lia.
    + constructor; [cbn; lia | constructor].
  - apply NoDup_app; [exact Hids | repeat constructor; intros [] |].
    intros a Ha [Hb|[]]. subst a.
    exact (find_none_not_in id Z.eqb _ _ Z.eqb_refl Hid Ha).
  - apply NoDup_app; [exact Hmails | repeat constructor; intros [] |].
    intros a Ha [Hb|[]]. subst a.
    exact (find_none_not_in email String.eqb _ _ String.eqb_refl Hmail Ha).
Qed.

Lemma keeps_comparePasswords (supplied stored : string) :
  keeps store_ok (comparePasswords supplied stored).
Proof.
  unfold comparePasswords. cbv zeta.
  destruct (nth_error (split "." stored) 1); [apply keeps_lift | apply keeps_throw].
Qed.

Lemma keeps_sendPasswordResetEmail (to resetLink : string) :
  keeps store_ok (sendPasswordResetEmail to resetLink).
Proof.
  apply keeps_same_table. intros w. unfold sendPasswordResetEmail.
  destruct (mailService_send to resetLink); split; reflexivity.
Qed.

Ltac keeps_case :=
  match goal with
  | |- keeps _ (match ?x with _ => _ end) => destruct x
  end.

Ltac keeps_step :=
  first
    [ apply keeps_createUser | apply keeps_setResetToken
    | apply keeps_updatePassword | apply keeps_comparePasswords
    | apply keeps_sendPasswordResetEmail
    | apply keeps_try_catch | apply keeps_bind | apply keeps_ret | apply keeps_throw
    | apply keeps_lift
    | apply keeps_same_table; intros; split; reflexivity
    | keeps_case
    | progress intros
    | progress cbv zeta ].

Lemma keeps_LocalStrategy_verify (e pw : string) :
  keeps store_ok (LocalStrategy_verify e pw).
Proof. unfold LocalStrategy_verify. repeat keeps_step. Qed.

Lemma keeps_GoogleStrategy_verify (profile : Profile) (now : Z) :
  keeps store_ok (GoogleStrategy_verify profile now).
Proof. unfold GoogleStrategy_verify. repeat keeps_step. Qed.

Lemma keeps_api_register (b : Body) (now : Z) (session : Session) :
  keeps store_ok (api_register b now session).
Proof.
  unfold api_register, insertUserSchema_parse. repeat keeps_step.
Qed.

Lemma keeps_api_login (b : Body) (session : Session) :
  keeps store_ok (api_login b session).
Proof.
  unfold api_login. repeat keeps_step; apply keeps_LocalStrategy_verify.
Qed.

Lemma keeps_api_user (session : Session) : keeps store_ok (api_user session).
Proof. unfold api_user, deserializeUser. repeat keeps_step. Qed.

Lemma keeps_api_forgot_password (b : Body) (now : Z) :
  keeps store_ok (api_forgot_password b now).
Proof.
  unfold api_forgot_password, resetPasswordSchema_parse. repeat keeps_step.
Qed.

Lemma keeps_api_reset_password (b : Body) (now : Z) :
  keeps store_ok (api_reset_password b now).
Proof.
  unfold api_reset_password, updatePasswordSchema_parse. repeat keeps_step.
Qed.

Lemma keeps_api_auth_google_callback (profile : Profile) (now : Z) (session : Session) :
  keeps store_ok (api_auth_google_callback profile now session).
Proof.
  unfold api_auth_google_callback. repeat keeps_step; apply keeps_GoogleStrategy_verify.
Qed.

Lemma serve_keeps_store_ok (r : request) (w : World) :
  store_ok w -> store_ok (serve r w).
Proof.
  intros Hw. destruct r; cbn [serve].
  - exact (keeps_api_register b now session w Hw).
  - exact (keeps_api_login b session w Hw).
  - exact Hw.
  - exact (keeps_api_user session w Hw).
  - exact (keeps_api_forgot_password b now w Hw).
  - exact (keeps_api_reset_password b now w Hw).
  - exact (keeps_api_auth_google_callback profile now session w Hw).
Qed.

(** X1.  Whatever requests the server handles, in whatever order, starting
    from an empty database: ids stay below the sequence, no two rows share an
    id, and no two rows share an e-mail. *)
Theorem constraints_hold_in_every_reachable_world
        (requests : list request) (source : nat -> byte) :
  store_ok (serve_all requests (empty_world source)).
Proof.
  assert (Hgen : forall w, store_ok w -> store_ok (serve_all requests w)).
  { unfold serve_all. induction requests as [|r rest IH]; intros w Hw; cbn [fold_left].
    - exact Hw.
    - apply IH. exact (serve_keeps_store_ok r w Hw). }
  apply Hgen. repeat split; constructor.
Qed.

(** ** Register, case by case *)

(** X2.  A register request has two outcomes only.  Either the body
    validates, the e-mail is new and the insert goes through: the answer is
    201 with the new row, that row is appended to the table, never flagged as
    a Google account, and the session holds its id.  Or the answer is 400,
    the session is the one the request came with and the table has the rows
    it had. *)
Theorem register_all_or_nothing (b : Body) (now : Z) (session : Session) (w : World) :
  (exists e pw : string,
      body_email b = Some e /\ body_password b = Some pw
      /\ isEmail e = true /\ password_ok pw
      /\ getUserByEmail e w = (Ok None, w)
      /\ api_register b now session w
         = (Ok (Respond 201
                  (Json (User_toJSON (new_row w e (record_of scrypt pw (drawn 16 w)) now))),
                Some (users_id_seq w)),
            inserted (new_row w e (record_of scrypt pw (drawn 16 w)) now) (after_draw 16 w)))
  \/ (exists msg : string,
        fst (api_register b now session w) = Ok (Respond 400 (message_body msg), session)
        /\ users (snd (api_register b now session w)) = users w).
Proof.
  destruct b as [[e|] [pw|] t];
    unfold api_register, try_catch, bind, insertUserSchema_parse;
    cbn [body_email body_password email_issues];
    try (right; eexists; split; reflexivity).
  - destruct (isEmail e) eqn:He; cbn [app];
      [|right; eexists; split; reflexivity].
    destruct (password_issues (Some pw)) eqn:Hpw;
      [|right; eexists; split; reflexivity].
    cbn [ret insert_email insert_password].
    destruct (getUserByEmail e w) as [r0 w0] eqn:Hlook.
    unfold getUserByEmail in Hlook. injection Hlook as Hr0 Hw0. subst r0 w0.
    destruct (find (fun u => String.eqb (email u) e) (users w)) as [taken|] eqn:Hmail;
      [right; eexists; split; reflexivity|].
    rewrite hashPassword_run.
    unfold createUser, bind, nextval, getUser, getUserByEmail.
    cbn [users users_id_seq after_draw insert_email insert_password].
    rewrite Hmail.
    destruct (find (fun u => Z.eqb (id u) (users_id_seq w)) (users w)) eqn:Hid;
      [right; eexists; split; reflexivity|].
    left. exists e, pw.
    repeat (split; [first [reflexivity | exact He | exact Hpw]|]).
    split.
    + unfold getUserByEmail. now rewrite Hmail.
    + reflexivity.
Qed.

(** ** Reset, case by case *)

(** X3.  A confirm-reset request has two outcomes only.  Either the body
    carries a token and a password the schema accepts, a row carries that
    token and its expiry is not before [now]: the answer is 200 and the world
    is the one [updatePassword] leaves.  Or the answer is 400 and the world
    is untouched: no row changes, no token is cleared, no random byte is
    drawn. *)
Theorem reset_all_or_nothing (b : Body) (now : Z) (w : World) :
  (exists (token pw : string) (u : User),
      body_token b = Some token /\ body_password b = Some pw /\ password_ok pw
      /\ getUserByResetToken token w = (Ok (Some u), w)
      /\ now <= expiry_of u
      /\ api_reset_password b now w
         = (Ok (Respond 200 (message_body "Password updated successfully")),
            reset_world u pw w))
  \/ (exists msg : string,
        api_reset_password b now w = (Ok (Respond 400 (message_body msg)), w)).
Proof.
  destruct b as [e [pw|] [token|]];
    unfold api_reset_password, try_catch, bind, updatePasswordSchema_parse;
    cbn [body_token body_password token_issues app];
    try (right; eexists; reflexivity).
  destruct (password_issues (Some pw)) eqn:Hpw;
    [|right; eexists; reflexivity].
  cbn [ret fst snd]. unfold getUserByResetToken.
  destruct (find (fun u => option_string_eqb (resetToken u) token) (users w))
    as [u|] eqn:Hfind; [|right; eexists; reflexivity].
  destruct (expiry_of u <? now)%Z eqn:Hexp; [right; eexists; reflexivity|].
  left. exists token, pw, u.
  repeat (split; [first [reflexivity | exact Hpw]|]).
  split; [unfold getUserByResetToken; now rewrite Hfind|].
  split; [now apply Z.ltb_ge | reflexivity].
Qed.

(** ** The password schema *)

Lemma filter_checks_nil (pw : string) (checks : list ((string -> bool) * string)) :
  map (fun chk => Issue "password" (snd chk))
      (filter (fun chk => negb (fst chk pw)) checks) = []
  <-> Forall (fun chk => fst chk pw = true) checks.
Proof.
  induction checks as [|chk rest IH]; cbn [filter map].
  - split; [constructor | reflexivity].
  - destruct (fst chk pw) eqn:Hc; cbn [negb].
    + rewrite IH. split.
      * intros Hrest. now constructor.
      * intros Hall. now inversion Hall.
    + cbn [map]. split; [discriminate|].
      intros Hall. inversion Hall as [|? ? Hhd _]. congruence.
Qed.

(** X4.  The schema accepts a password, in register and in confirm-reset
    alike, exactly when it has at least 8 characters and among them an upper
    case letter, a lower case letter, a digit and a character that is none of
    these. *)
Theorem password_ok_iff (pw : string) :
  password_ok pw <->
  (8 <= String.length pw)%nat
  /\ (exists c, In c (list_ascii_of_string pw) /\ isUpper c = true)
  /\ (exists c, In c (list_ascii_of_string pw) /\ isLower c = true)
  /\ (exists c, In c (list_ascii_of_string pw) /\ isDigit c = true)
  /\ (exists c, In c (list_ascii_of_string pw)
                /\ isUpper c = false /\ isLower c = false /\ isDigit c = false).
Proof.
  unfold password_ok, password_issues. rewrite filter_checks_nil.
  unfold password_checks, regex_test.
  split.
  - intros Hall.
    inversion Hall as [|? ? Hlen H1]; subst.
    inversion H1 as [|? ? Hup H2]; subst.
    inversion H2 as [|? ? Hlow H3]; subst.
    inversion H3 as [|? ? Hdig H4]; subst.
    inversion H4 as [|? ? Hspec _]; subst.
    cbn [fst] in *.
    split; [now apply Nat.leb_le|].
    split; [now apply existsb_exists|].
    split; [now apply existsb_exists|].
    split; [now apply existsb_exists|].
    apply existsb_exists in Hspec as [c [Hin Hc]].
    exists c. split; [exact Hin|].
    apply negb_true_iff in Hc.
    apply orb_false_iff in Hc as [Hc Hd]. apply orb_false_iff in Hc as [Hu Hl].
    auto.
  - intros (Hlen & Hup & Hlow & Hdig & [c (Hin & Hu & Hl & Hd)]).
    repeat constructor; cbn [fst].
    + now apply Nat.leb_le.
    + now apply existsb_exists.
    + now apply existsb_exists.
    + now apply existsb_exists.
    + apply existsb_exists. exists c. split; [exact Hin|].
      now rewrite Hu, Hl, Hd.
Qed.

(** ** Asking for a reset, case by case *)

Lemma api_forgot_password_known (e : string) (p t : option string) (u : User)
      (now : Z) (w : World) :
  isEmail e = true ->
  getUserByEmail e w = (Ok (Some u), w) ->
  api_forgot_password (mkBody (Some e) p t) now w
  = (Ok (Respond 200
           (Json (JObject
              [ ("message", JString ack);
                ("debug",
                 JObject [("resetLink", JString (reset_link (toString_hex (drawn 32 w))))]) ]))),
     forgot_world e u now w).
Proof.
  intros He Hfound. unfold api_forgot_password, try_catch, bind.
  rewrite (resetPasswordSchema_parse_ok e p t w He), Hfound, randomBytes_run.
  unfold setResetToken, execute, sendPasswordResetEmail, forgot_world, reset_link.
  cbv zeta.
  destruct (mailService_send e _); reflexivity.
Qed.

(** X5.  A forgot-password request has three outcomes only.  For an e-mail
    the schema accepts and the table knows: 200, one [UPDATE] that stores a
    fresh token on the user's row, and the mail in the outbox if the provider
    took it; the answer is the same when the provider refused it.  For an
    e-mail the schema accepts and the table does not know: 200 and an
    untouched world.  For a missing or refused e-mail: 400 and an untouched
    world. *)
Theorem forgot_password_outcomes (b : Body) (now : Z) (w : World) :
  (exists (e : string) (u : User),
      body_email b = Some e /\ isEmail e = true
      /\ getUserByEmail e w = (Ok (Some u), w)
      /\ api_forgot_password b now w
         = (Ok (Respond 200
                  (Json (JObject
                     [ ("message", JString ack);
                       ("debug",
                        JObject [("resetLink",
                                  JString (reset_link (toString_hex (drawn 32 w))))]) ]))),
            forgot_world e u now w))
  \/ (exists e : string,
        body_email b = Some e /\ isEmail e = true
        /\ getUserByEmail e w = (Ok None, w)
        /\ api_forgot_password b now w = (Ok (Respond 200 (message_body ack)), w))
  \/ (exists msg : string,
        (forall e, body_email b = Some e -> isEmail e = false)
        /\ api_forgot_password b now w = (Ok (Respond 400 (message_body msg)), w)).
Proof.
  destruct b as [[e|] p t].
  - destruct (isEmail e) eqn:He.
    + destruct (find (fun u => String.eqb (email u) e) (users w)) as [u|] eqn:Hfind.
      * left. exists e, u.
        assert (Hfound : getUserByEmail e w = (Ok (Some u), w))
          by (unfold getUserByEmail; now rewrite Hfind).
        repeat (split; [first [reflexivity | assumption]|]).
        exact (api_forgot_password_known e p t u now w He Hfound).
      * right. left. exists e.
        assert (Hnone : getUserByEmail e w = (Ok None, w))
          by (unfold getUserByEmail; now rewrite Hfind).
        repeat (split; [first [reflexivity | assumption]|]).
        unfold api_forgot_password, try_catch, bind.
        now rewrite (resetPasswordSchema_parse_ok e p t w He), Hnone.
    + right. right. eexists. split.
      * intros e' He'. cbn in He'. now injection He' as <-.
      * unfold api_forgot_password, try_catch, bind, resetPasswordSchema_parse.
        cbn [body_email email_issues]. rewrite He. reflexivity.
  - right. right. eexists. split; [discriminate | reflexivity].
Qed.

Lemma length_drawn (n : nat) (w : World) : List.length (drawn n w) = n.
Proof. unfold drawn. now rewrite length_map, length_seq. Qed.


(** ** From the request to the new password *)





(** ** Login and the session *)

(** X8.  Login only reads.  Whatever the body, the handler returns (nothing
    escapes as an exception), the world is the one it started in, and the
    reply is one of three: 200 with a row of the table whose e-mail is the
    submitted one, the session now holding its id; 401 with a message, the
    session unchanged; or the error of [comparePasswords] handed to the
    framework's error handler, the session unchanged. *)
Theorem login_only_reads (b : Body) (session : Session) (w : World) :
  exists (reply : outcome) (session' : Session),
    api_login b session w = (Ok (reply, session'), w)
    /\ ((exists u : User,
            reply = Respond 200 (Json (User_toJSON u)) /\ session' = Some (id u)
            /\ In u (users w) /\ body_email b = Some (email u))
        \/ (session' = session /\ exists msg : string, reply = Respond 401 (message_body msg))
        \/ (session' = session /\ exists err : error, reply = Next err)).
Proof.
  unfold api_login.
  destruct (truthy (body_email b) && truthy (body_password b));
    [|do 2 eexists; split; [reflexivity|]; right; left; split; [reflexivity | eexists; reflexivity]].
  destruct (body_email b) as [e|] eqn:Hbe;
    [|do 2 eexists; split; [reflexivity|]; right; left; split; [reflexivity | eexists; reflexivity]].
  destruct (body_password b) as [pw|];
    [|do 2 eexists; split; [reflexivity|]; right; left; split; [reflexivity | eexists; reflexivity]].
  unfold bind, LocalStrategy_verify, try_catch, bind, getUserByEmail.
  destruct (find (fun u => String.eqb (email u) e) (users w)) as [u|] eqn:Hfind;
    [|do 2 eexists; split; [reflexivity|]; right; left; split; [reflexivity | eexists; reflexivity]].
  unfold comparePasswords. cbv zeta.
  destruct (nth_error (split "." (password u)) 1) as [salt|];
    [|do 2 eexists; split; [reflexivity|]; right; right; split; [reflexivity | eexists; reflexivity]].
  unfold lift, timingSafeEqual.
  destruct (Nat.eqb _ _);
    [|do 2 eexists; split; [reflexivity|]; right; right; split; [reflexivity | eexists; reflexivity]].
  destruct (list_byte_eqb _ _);
    [|do 2 eexists; split; [reflexivity|]; right; left; split; [reflexivity | eexists; reflexivity]].
  do 2 eexists. split; [reflexivity|]. left. exists u.
  apply find_some in Hfind as [Hin Heq]. apply String.eqb_eq in Heq.
  repeat split; [exact Hin | now rewrite Heq].
Qed.

(** X9.  A stored record without a dot does not end in "invalid
    credentials": the user's login, with any non-empty password, is handed to
    the framework's error handler with the TypeError of scrypt, and the
    session stays as it was. *)
Theorem login_on_record_without_dot
        (e pw : string) (t : option string) (u : User) (session : Session) (w : World) :
  e <> "" -> pw <> "" ->
  getUserByEmail e w = (Ok (Some u), w) ->
  free_of "." (password u) = true ->
  api_login (mkBody (Some e) (Some pw) t) session w
  = (Ok (Next ERR_INVALID_ARG_TYPE, session), w).
Proof.
  intros He Hpw Hfound Hfree. unfold api_login. cbn [body_email body_password].
  rewrite (truthy_Some e He), (truthy_Some pw Hpw). cbn [andb].
  unfold bind, LocalStrategy_verify, try_catch, bind.
  rewrite Hfound. unfold comparePasswords. cbv zeta.
  rewrite (split_free "." (password u) Hfree). reflexivity.
Qed.



(** ** Google login *)

(** X11.  A Google login whose first profile e-mail is already in the table
    returns that row as it is, whether it was created by register or by an
    earlier Google login, writes nothing and draws no random byte; the
    callback then redirects to "/" with the row's id in the session.  A
    profile with no e-mail list, an empty list or an empty first e-mail gets
    the error "No email provided from Google", handed to the framework. *)
Theorem google_login_links_by_email
        (e : string) (others : list string) (u : User) (now : Z)
        (session : Session) (w : World) :
  e <> "" ->
  getUserByEmail e w = (Ok (Some u), w) ->
  GoogleStrategy_verify (mkProfile (Some (e :: others))) now w = (Ok (Done_user u), w)
  /\ api_auth_google_callback (mkProfile (Some (e :: others))) now session w
     = (Ok (Redirect "/", Some (id u)), w)
  /\ api_auth_google_callback (mkProfile None) now session w
     = (Ok (Next NoEmailFromGoogle, session), w)
  /\ api_auth_google_callback (mkProfile (Some [])) now session w
     = (Ok (Next NoEmailFromGoogle, session), w)
  /\ api_auth_google_callback (mkProfile (Some ("" :: others))) now session w
     = (Ok (Next NoEmailFromGoogle, session), w).
Proof.
  intros He Hfound.
  assert (Hne : String.eqb e "" = false) by now apply String.eqb_neq.
  assert (Hverify : GoogleStrategy_verify (mkProfile (Some (e :: others))) now w
                    = (Ok (Done_user u), w)).
  { unfold GoogleStrategy_verify, try_catch, bind. cbn [emails].
    now rewrite Hne, Hfound. }
  split; [exact Hverify|]. split.
  { unfold api_auth_google_callback, bind. now rewrite Hverify. }
  repeat split.
Qed.

Lemma GoogleStrategy_verify_new (e : string) (others : list string) (now : Z) (w : World) :
  e <> "" ->
  getUserByEmail e w = (Ok None, w) ->
  ids_fresh w ->
  let hashed := record_of scrypt (toString_hex (drawn 32 w)) (drawn 16 (after_draw 32 w)) in
  let u := new_row w e hashed now in
  GoogleStrategy_verify (mkProfile (Some (e :: others))) now w
  = (Ok (Done_user u), inserted u (after_draw 16 (after_draw 32 w))).
Proof.
  intros He Hfree Hfresh hashed u.
  assert (Hne : String.eqb e "" = false) by now apply String.eqb_neq.
  unfold GoogleStrategy_verify, try_catch, bind. cbn [emails].
  rewrite Hne, Hfree, randomBytes_run, hashPassword_run. fold hashed.
  rewrite (createUser_run e hashed now (after_draw 16 (after_draw 32 w))).
  - reflexivity.
  - exact Hfresh.
  - unfold getUserByEmail in *. injection Hfree as Hfree.
    cbn [after_draw users]. now rewrite Hfree.
Qed.

(** X12.  A first Google login logs the new user in: for an e-mail that is
    not in the table, the callback inserts the row, redirects to "/" and
    leaves its id in the session, and current-user with that session
    answers 200 with the new row. *)
Theorem google_callback_then_current_user
        (e : string) (others : list string) (now : Z) (session : Session) (w : World) :
  e <> "" ->
  getUserByEmail e w = (Ok None, w) ->
  ids_fresh w ->
  exists (u : User) (w' : World),
    api_auth_google_callback (mkProfile (Some (e :: others))) now session w
    = (Ok (Redirect "/", Some (id u)), w')
    /\ email u = e
    /\ users w' = (users w ++ [u])%list
    /\ api_user (Some (id u)) w' = (Ok (Respond 200 (Json (User_toJSON u)), Some (id u)), w').
Proof.
  intros He Hfree Hfresh.
  set (hashed := record_of scrypt (toString_hex (drawn 32 w)) (drawn 16 (after_draw 32 w))).
  set (w0 := after_draw 16 (after_draw 32 w)).
  exists (new_row w e hashed now), (inserted (new_row w e hashed now) w0).
  split.
  { unfold api_auth_google_callback, bind.
    now rewrite (GoogleStrategy_verify_new e others now w He Hfree Hfresh). }
  split; [reflexivity|]. split; [reflexivity|].
  assert (Hfresh0 : ids_fresh w0) by exact Hfresh.
  pose proof (getUser_inserted e hashed now w0 Hfresh0) as Hget.
  change (getUser (id (new_row w e hashed now)) (inserted (new_row w e hashed now) w0)
          = (Ok (Some (new_row w e hashed now)), inserted (new_row w e hashed now) w0)) in Hget.
  unfold api_user, deserializeUser, bind. now rewrite Hget.
Qed.

(** ** The shape of a record *)

Lemma length_string_append (a b : string) :
  String.length (a ++ b) = (String.length a + String.length b)%nat.
Proof.
  induction a as [|c rest IH]; cbn [String.append String.length]; [reflexivity|].
  now rewrite IH.
Qed.

(** X13.  What [hashPassword] writes can be read back: splitting the record
    at the dot gives the hex of the derived key and the hex of the salt,
    and decoding them gives the key and the 16 salt bytes; the record is 161
    characters long; and two calls that draw different salts give different
    records, also for the same password. *)
Theorem record_reads_back (pw : string) (w : World) :
  let h := record_of scrypt pw (drawn 16 w) in
  hashPassword pw w = (Ok h, after_draw 16 w)
  /\ split "." h = [toString_hex (scrypt pw (toString_hex (drawn 16 w)) 64);
                    toString_hex (drawn 16 w)]
  /\ Buffer_from_hex (nth 0 (split "." h) EmptyString)
     = scrypt pw (toString_hex (drawn 16 w)) 64
  /\ Buffer_from_hex (nth 1 (split "." h) EmptyString) = drawn 16 w
  /\ String.length h = 161%nat
  /\ (forall (pw2 : string) (w2 : World),
        drawn 16 w2 <> drawn 16 w ->
        record_of scrypt pw2 (drawn 16 w2) <> h).
Proof.
  intros h. unfold h, record_of.
  split; [reflexivity|].
  rewrite split_record. cbn [nth].
  split; [reflexivity|].
  split; [apply Buffer_from_hex_toString|].
  split; [apply Buffer_from_hex_toString|].
  split.
  - rewrite !length_string_append, !length_toString_hex, scrypt_length, length_drawn.
    reflexivity.
  - intros pw2 w2 Hsalt Heq. apply Hsalt.
    apply (f_equal (split ".")) in Heq. rewrite !split_record in Heq.
    apply (f_equal (fun parts => Buffer_from_hex (nth 1 parts EmptyString))) in Heq.
    cbn [nth] in Heq. now rewrite !Buffer_from_hex_toString in Heq.
Qed.

(** ** Register, then log in *)

(** X14.  What register stores, login finds.  After a register that
    validates for an e-mail not yet in the table, a login with the same
    e-mail and password answers 200 with the row register returned; a login
    with a password that derives another key answers 401 "Invalid email or
    password"; and a second register with that e-mail answers 400 "Email
    already registered" and changes nothing. *)
Theorem register_then_login
        (e pw : string) (t : option string) (now : Z) (session : Session) (w : World) :
  isEmail e = true -> password_ok pw -> e <> "" ->
  getUserByEmail e w = (Ok None, w) ->
  ids_fresh w ->
  exists (u : User) (w' : World),
    api_register (mkBody (Some e) (Some pw) t) now session w
    = (Ok (Respond 201 (Json (User_toJSON u)), Some (id u)), w')
    /\ (forall s, api_login (mkBody (Some e) (Some pw) t) s w'
                  = (Ok (Respond 200 (Json (User_toJSON u)), Some (id u)), w'))
    /\ (forall (pw' : string) (s : Session),
          pw' <> "" ->
          scrypt pw' (toString_hex (drawn 16 w)) 64 <> scrypt pw (toString_hex (drawn 16 w)) 64 ->
          api_login (mkBody (Some e) (Some pw') t) s w'
          = (Ok (Respond 401 (message_body "Invalid email or password"), s), w'))
    /\ (forall (pw2 : string) (now2 : Z) (s : Session),
          password_ok pw2 ->
          api_register (mkBody (Some e) (Some pw2) t) now2 s w'
          = (Ok (Respond 400 (message_body "Email already registered"), s), w')).
Proof.
  intros He Hpw Hne Hfree Hfresh.
  set (hashed := record_of scrypt pw (drawn 16 w)).
  set (u := new_row w e hashed now).
  set (w' := inserted u (after_draw 16 w)).
  assert (Hpwne : pw <> "") by (intros ->; discriminate Hpw).
  assert (Hfree0 : getUserByEmail e (after_draw 16 w) = (Ok None, after_draw 16 w)).
  { unfold getUserByEmail in *. injection Hfree as Hfree.
    cbn [after_draw users]. now rewrite Hfree. }
  assert (Hfound : getUserByEmail e w' = (Ok (Some u), w'))
    by exact (getUserByEmail_inserted e hashed now (after_draw 16 w) Hfree0).
  exists u, w'.
  split; [exact (api_register_ok e pw t now session w He Hpw Hfree Hfresh)|].
  split; [|split].
  - intros s. unfold api_login. cbn [body_email body_password].
    rewrite (truthy_Some e Hne), (truthy_Some pw Hpwne). cbn [andb]. unfold bind.
    now rewrite (LocalStrategy_verify_ok e pw (drawn 16 w) u w' Hfound eq_refl).
  - intros pw' s Hpw' Hkeys. unfold api_login. cbn [body_email body_password].
    rewrite (truthy_Some e Hne), (truthy_Some pw' Hpw'). cbn [andb]. unfold bind.
    now rewrite (LocalStrategy_verify_wrong e pw pw' (drawn 16 w) u w' Hfound eq_refl Hkeys).
  - intros pw2 now2 s Hpw2. unfold api_register, try_catch, bind.
    rewrite (insertUserSchema_parse_ok e pw2 t w' He Hpw2).
    cbn [insert_email]. now rewrite Hfound.
Qed.

(** ** Token and expiry go together *)

Lemma paired_same_users {A : Type} (m : M A) :
  (forall w, users (snd (m w)) = users w) -> keeps paired m.
Proof. intros Hsame w Hw. unfold paired in *. now rewrite Hsame. Qed.

Lemma paired_update (f : User -> User) (s : statement) :
  (forall rows, exec s rows = map f rows) ->
  (forall r, (resetToken r = None <-> resetTokenExpiry r = None) ->
             (resetToken (f r) = None <-> resetTokenExpiry (f r) = None)) ->
  keeps paired (execute s).
Proof.
  intros Hexec Hf w Hw. unfold paired, execute in *. cbn [snd users].
  rewrite Hexec. apply Forall_forall. intros v Hv.
  apply in_map_iff in Hv as [r [Hr Hin]]. subst v.
  apply Hf. exact (proj1 (Forall_forall _ _) Hw r Hin).
Qed.

Lemma paired_setResetToken (userId : Z) (token : string) (expiry : Z) :
  keeps paired (setResetToken userId token expiry).
Proof.
  apply (paired_update
           (fun u => if Z.eqb (id u) userId
                     then mkUser (id u) (email u) (password u) (createdAt u)
                                 (isGoogleUser u) (Some token) (Some expiry)
                     else u)).
  - reflexivity.
  - intros r Hr. destruct (Z.eqb (id r) userId); [cbn; split; discriminate | exact Hr].
Qed.

Lemma paired_updatePassword (userId : Z) (hashed : string) :
  keeps paired (updatePassword userId hashed).
Proof.
  apply (paired_update
           (fun u => if Z.eqb (id u) userId
                     then mkUser (id u) (email u) hashed (createdAt u)
                                 (isGoogleUser u) None None
                     else u)).
  - reflexivity.
  - intros r Hr. destruct (Z.eqb (id r) userId); [cbn; split; reflexivity | exact Hr].
Qed.

Lemma paired_createUser (insertUser : InsertUser) (now : Z) :
  keeps paired (createUser insertUser now).
Proof.
  intros w Hw.
  unfold createUser, bind, nextval, getUser, getUserByEmail. cbn [users].
  destruct (find (fun u => Z.eqb (id u) (users_id_seq w)) (users w)); [exact Hw|].
  destruct (find (fun u => String.eqb (email u) (insert_email insertUser)) (users w));
    [exact Hw|].
  unfold paired, execute, ret in *. cbn [snd users exec].
  apply Forall_app. split; [exact Hw|].
  constructor; [cbn; split; reflexivity | constructor].
Qed.

Lemma paired_comparePasswords (supplied stored : string) :
  keeps paired (comparePasswords supplied stored).
Proof.
  unfold comparePasswords. cbv zeta.
  destruct (nth_error (split "." stored) 1); [apply keeps_lift | apply keeps_throw].
Qed.

Lemma paired_sendPasswordResetEmail (to resetLink : string) :
  keeps paired (sendPasswordResetEmail to resetLink).
Proof.
  apply paired_same_users. intros w. unfold sendPasswordResetEmail.
  now destruct (mailService_send to resetLink).
Qed.

Ltac paired_step :=
  first
    [ apply paired_createUser | apply paired_setResetToken
    | apply paired_updatePassword | apply paired_comparePasswords
    | apply paired_sendPasswordResetEmail
    | apply keeps_try_catch | apply keeps_bind | apply keeps_ret | apply keeps_throw
    | apply keeps_lift
    | apply paired_same_users; intros; reflexivity
    | keeps_case
    | progress intros
    | progress cbv zeta ].

Lemma serve_keeps_paired (r : request) (w : World) : paired w -> paired (serve r w).
Proof.
  intros Hw. destruct r; cbn [serve].
  - revert w Hw. change (keeps paired (api_register b now session)).
    unfold api_register, insertUserSchema_parse. repeat paired_step.
  - revert w Hw. change (keeps paired (api_login b session)).
    unfold api_login, LocalStrategy_verify. repeat paired_step.
  - exact Hw.
  - revert w Hw. change (keeps paired (api_user session)).
    unfold api_user, deserializeUser. repeat paired_step.
  - revert w Hw. change (keeps paired (api_forgot_password b now)).
    unfold api_forgot_password, resetPasswordSchema_parse. repeat paired_step.
  - revert w Hw. change (keeps paired (api_reset_password b now)).
    unfold api_reset_password, updatePasswordSchema_parse. repeat paired_step.
  - revert w Hw. change (keeps paired (api_auth_google_callback profile now session)).
    unfold api_auth_google_callback, GoogleStrategy_verify. repeat paired_step.
Qed.

(** X15.  In every world the server can reach from an empty database, a
    row has a reset token exactly when it has an expiry; so the row that the
    confirm handler finds by token always has an expiry to compare, and the
    non-null assertion on [resetTokenExpiry] never meets a null. *)
Theorem token_and_expiry_go_together (requests : list request) (source : nat -> byte) :
  let w := serve_all requests (empty_world source) in
  paired w
  /\ (forall (token : string) (u : User),
        getUserByResetToken token w = (Ok (Some u), w) ->
        exists E : Z, resetTokenExpiry u = Some E /\ expiry_of u = E).
Proof.
  intros w.
  assert (Hgen : forall w0, paired w0 -> paired (serve_all requests w0)).
  { unfold serve_all. induction requests as [|r rest IH]; intros w0 Hw0; cbn [fold_left].
    - exact Hw0.
    - apply IH. exact (serve_keeps_paired r w0 Hw0). }
  assert (Hw : paired w) by (apply Hgen; constructor).
  split; [exact Hw|].
  intros token u Hget. unfold getUserByResetToken in Hget. injection Hget as Hget.
  apply find_some in Hget as [Hin Hcarries].
  pose proof (proj1 (Forall_forall _ _) Hw u Hin) as Hpair. cbn beta in Hpair.
  unfold expiry_of.
  destruct (resetTokenExpiry u) as [E|].
  - exists E. split; reflexivity.
  - exfalso. destruct (resetToken u) as [t0|]; [|discriminate Hcarries].
    destruct Hpair as [_ Hback]. discriminate (Hback eq_refl).
Qed.

(** ** What a record may be followed by *)

Lemma string_append_assoc (a b c : string) : ((a ++ b) ++ c = a ++ (b ++ c))%string.
Proof.
  induction a as [|x rest IH]; cbn [String.append]; [reflexivity|]. now rewrite IH.
Qed.

(** X16.  [comparePasswords] takes the first two parts of the stored string
    and ignores the rest: a record of [hashPassword] followed by a dot and
    any text compares with every supplied password exactly as the record
    itself does, and so still verifies the password it was made from. *)
Theorem comparePasswords_ignores_extra_parts
        (supplied pw tail : string) (saltBytes : list byte) (w : World) :
  comparePasswords supplied (record_of scrypt pw saltBytes ++ "." ++ tail) w
  = comparePasswords supplied (record_of scrypt pw saltBytes) w
  /\ comparePasswords pw (record_of scrypt pw saltBytes ++ "." ++ tail) w = (Ok true, w).
Proof.
  assert (Hsplit : forall s,
            comparePasswords s (record_of scrypt pw saltBytes ++ "." ++ tail) w
            = comparePasswords s (record_of scrypt pw saltBytes) w).
  { intros s. unfold comparePasswords, record_of. cbv zeta.
    rewrite split_record.
    rewrite !string_append_assoc.
    change ("." ++ toString_hex saltBytes ++ "." ++ tail)
      with (String "." (toString_hex saltBytes ++ String "." tail)).
    rewrite split_app by apply toString_hex_free_of_dot.
    rewrite split_app by apply toString_hex_free_of_dot.
    reflexivity. }
  split; [apply Hsplit|].
  rewrite Hsplit, comparePasswords_record. unfold timingSafeEqual.
  now rewrite Nat.eqb_refl, list_byte_eqb_refl.
Qed.

End Auth.

(** ** The handlers at work in the concrete deployment *)

Lemma demo_scrypt_length (pw salt : string) (keylen : nat) :
  List.length (demo_scrypt pw salt keylen) = keylen.
Proof.
  unfold demo_scrypt. rewrite length_firstn, !length_app, repeat_length. lia.
Qed.

Lemma ids_fresh_world_alice : ids_fresh world_alice.
Proof. repeat constructor. Qed.

Lemma alice_holds_c0ffee : holds_token world_alice alice "c0ffee".
Proof. split; [left|]; reflexivity. Qed.

Lemma alice_alone_holds_c0ffee (v : User) :
  holds_token world_alice v "c0ffee" -> v = alice.
Proof. intros [[Hv|[]] _]. symmetry. exact Hv. Qed.

(** C1 at work: Alice confirms at instant 4000; a replay at 4500, still
    before the expiry 5000, is refused. *)
Lemma reset_confirm_succeeds_once_witness :
  api_reset_password demo_scrypt demo_message (reset_body "c0ffee" "Bb2@bbbb") 4000 world_alice
  = (Ok (Respond 200 (message_body "Password updated successfully")),
     reset_world demo_scrypt alice "Bb2@bbbb" world_alice)
  /\ api_reset_password demo_scrypt demo_message (reset_body "c0ffee" "Cc3#cccc") 4500
       (reset_world demo_scrypt alice "Bb2@bbbb" world_alice)
     = (Ok (Respond 400 (message_body "Invalid or expired reset token")),
        reset_world demo_scrypt alice "Bb2@bbbb" world_alice).
Proof.
  destruct (reset_confirm_succeeds_once demo_scrypt demo_message alice "c0ffee" "Bb2@bbbb"
              5000 4000 None world_alice
              alice_holds_c0ffee alice_alone_holds_c0ffee eq_refl)
    as (Hfirst & _ & _ & _ & _ & _ & Hreplay).
  - lia.
  - reflexivity.
  - split; [exact Hfirst | apply Hreplay; reflexivity].
Defined.

(** C2 at work: the record of "Aa1!aaaa" verifies it and refuses
    "Wrong1!x". *)
Lemma hash_then_compare_witness :
  exists (h : string) (w' : World),
    hashPassword demo_scrypt "Aa1!aaaa" world0 = (Ok h, w')
    /\ comparePasswords demo_scrypt "Aa1!aaaa" h world0 = (Ok true, world0)
    /\ comparePasswords demo_scrypt "Wrong1!x" h world0 = (Ok false, world0).
Proof.
  destruct (hash_then_compare demo_scrypt demo_scrypt_length "Wrong1!x" "Aa1!aaaa"
              world0 world0) as (h & w' & Hhash & Hsame & Hother).
  exists h, w'. split; [exact Hhash|]. split; [exact Hsame|].
  apply Hother. vm_compute. discriminate.
Defined.

(** C3: Alice's token runs out at instant 5000, and a confirm at exactly
    5000 is still accepted. *)
Lemma reset_accepted_at_expiry_instant :
  resetTokenExpiry alice = Some 5000
  /\ fst (api_reset_password demo_scrypt demo_message (reset_body "c0ffee" "Bb2@bbbb")
            5000 world_alice)
     = Ok (Respond 200 (message_body "Password updated successfully")).
Proof. split; reflexivity. Qed.

(** C3 at work: one millisecond later the confirm is refused. *)
Lemma reset_token_valid_through_expiry_witness :
  api_reset_password demo_scrypt demo_message (reset_body "c0ffee" "Bb2@bbbb") 5001 world_alice
  = (Ok (Respond 400 (message_body "Reset token has expired")), world_alice).
Proof.
  apply (reset_token_valid_through_expiry demo_scrypt demo_message alice "c0ffee" "Bb2@bbbb"
           5000 5001 None world_alice); [reflexivity | reflexivity | reflexivity | lia].
Defined.

(** C8: at instant 6000 a token nobody holds and Alice's run-out token get
    two different messages. *)
Lemma reset_failures_differ :
  fst (api_reset_password demo_scrypt demo_message (reset_body "deadbeef" "Bb2@bbbb")
         6000 world_alice)
  = Ok (Respond 400 (message_body "Invalid or expired reset token"))
  /\ fst (api_reset_password demo_scrypt demo_message (reset_body "c0ffee" "Bb2@bbbb")
            6000 world_alice)
     = Ok (Respond 400 (message_body "Reset token has expired"))
  /\ String.eqb "Invalid or expired reset token" "Reset token has expired" = false.
Proof. repeat split. Qed.

(** C8 at work, at instant 7000. *)
Lemma reset_failure_messages_witness :
  api_reset_password demo_scrypt demo_message (reset_body "deadbeef" "Bb2@bbbb") 7000 world_alice
  = (Ok (Respond 400 (message_body "Invalid or expired reset token")), world_alice)
  /\ api_reset_password demo_scrypt demo_message (reset_body "c0ffee" "Bb2@bbbb") 7000 world_alice
     = (Ok (Respond 400 (message_body "Reset token has expired")), world_alice).
Proof.
  apply (reset_failure_messages demo_scrypt demo_message alice "c0ffee" "deadbeef" "Bb2@bbbb"
           5000 7000 None world_alice); [reflexivity | reflexivity | reflexivity | lia | reflexivity].
Defined.

(** C7: a stored string without a dot makes [comparePasswords] throw. *)
Lemma comparePasswords_throws_without_dot :
  comparePasswords demo_scrypt "Aa1!aaaa" "not-a-record" world0
  = (Throw ERR_INVALID_ARG_TYPE, world0).
Proof. reflexivity. Qed.

(** C7 at work: a key part that is not hex decodes to no byte at all, and
    the comparison throws the RangeError. *)
Lemma comparePasswords_outcomes_witness :
  comparePasswords demo_scrypt "Aa1!aaaa" "zz.00" world0
  = (Throw ERR_CRYPTO_TIMING_SAFE_EQUAL_LENGTH, world0).
Proof.
  apply (comparePasswords_outcomes demo_scrypt demo_scrypt_length "Aa1!aaaa" "zz.00" world0).
  - reflexivity.
  - cbn. discriminate.
Defined.

(** C9: Alice is stored as "a@x.com"; with the right password but the
    e-mail typed in capitals she is told "Invalid email or password". *)
Lemma login_with_other_case_fails :
  fst (getUserByEmail "a@x.com" world_alice) = Ok (Some alice)
  /\ password alice = record_of demo_scrypt "Aa1!aaaa" (drawn 16 world0)
  /\ LocalStrategy_verify demo_scrypt "A@X.COM" "Aa1!aaaa" world_alice
     = (Ok (Done_fail "Invalid email or password"), world_alice).
Proof. repeat split. Qed.

(** C9 at work: the stored spelling logs in, another password does not. *)
Lemma local_login_exact_email_witness :
  LocalStrategy_verify demo_scrypt "a@x.com" "Aa1!aaaa" world_alice
  = (Ok (Done_user alice), world_alice)
  /\ LocalStrategy_verify demo_scrypt "a@x.com" "Wrong1!x" world_alice
     = (Ok (Done_fail "Invalid email or password"), world_alice).
Proof.
  destruct (local_login_exact_email demo_scrypt demo_scrypt_length alice "Aa1!aaaa"
              (drawn 16 world0) world_alice eq_refl eq_refl)
    as (Hok & _ & _ & Hwrong).
  split; [exact Hok|]. apply Hwrong. vm_compute. discriminate.
Defined.

(** C5: the 201 body of Alice's registration holds the very record the
    table stores for her. *)
Lemma register_reply_shows_hash :
  let run := api_register demo_scrypt demo_isEmail demo_message
               (credentials "a@x.com" "Aa1!aaaa") 1000 None world0 in
  let row := mkUser 1 "a@x.com" alice_record 1000 false None None in
  fst run = Ok (Respond 201 (Json (User_toJSON row)), Some 1)
  /\ member "password" (User_toJSON row) = Some (JString alice_record)
  /\ users (snd run) = [row].
Proof. repeat split. Qed.

(** C5 at work: Alice logs in and reads her own hash record. *)
Lemma replies_carry_the_hash_witness :
  api_login demo_scrypt (credentials "a@x.com" "Aa1!aaaa") None world_alice
  = (Ok (Respond 200 (Json (User_toJSON alice)), Some 1), world_alice)
  /\ member "password" (User_toJSON alice) = Some (JString alice_record).
Proof.
  destruct (replies_carry_the_hash demo_scrypt demo_isEmail demo_message
              "a@x.com" "Aa1!aaaa" None 0 None (drawn 16 world0) alice world_alice)
    as (Hmember & _ & Hlogin & _).
  - reflexivity.
  - reflexivity.
  - discriminate.
  - discriminate.
  - exact ids_fresh_world_alice.
  - split; [apply Hlogin; reflexivity | apply Hmember].
Defined.

(** C10 at work: registration on the empty database, then current-user. *)
Lemma register_then_current_user_witness :
  exists (u : User) (session' : Session) (w' : World),
    api_register demo_scrypt demo_isEmail demo_message
      (credentials "a@x.com" "Aa1!aaaa") 1000 None world0
    = (Ok (Respond 201 (Json (User_toJSON u)), session'), w')
    /\ email u = "a@x.com"
    /\ session' = Some (id u)
    /\ api_user session' w' = (Ok (Respond 200 (Json (User_toJSON u)), session'), w').
Proof.
  apply (register_then_current_user demo_scrypt demo_isEmail demo_message
           "a@x.com" "Aa1!aaaa" None 1000 None world0);
    [reflexivity | reflexivity | reflexivity | constructor].
Defined.

(** C6 at work: Bob's first Google login next to Alice. *)
Lemma google_login_creates_unflagged_user_witness :
  exists u : User,
    fst (GoogleStrategy_verify demo_scrypt (mkProfile (Some ["bob@x.com"])) 2000 world_alice)
    = Ok (Done_user u)
    /\ id u = 2 /\ email u = "bob@x.com" /\ isGoogleUser u = false.
Proof.
  destruct (google_login_creates_unflagged_user demo_scrypt "bob@x.com" [] 2000 world_alice)
    as (Hrun & _ & _ & Hflag & _).
  - discriminate.
  - reflexivity.
  - exact ids_fresh_world_alice.
  - eexists. split; [rewrite Hrun; reflexivity|]. repeat split.
Defined.

(** C4 at work: the same request for Alice and for a stranger. *)
Lemma forgot_password_bodies_witness :
  fst (api_forgot_password demo_isEmail demo_message demo_send false None None
         (mkBody (Some "ghost@x.com") None None) 3000 world_alice)
  = Ok (Respond 200 (Json (JObject [("message", JString ack)])))
  /\ fst (api_forgot_password demo_isEmail demo_message demo_send false None None
            (mkBody (Some "a@x.com") None None) 3000 world_alice)
     = Ok (Respond 200
             (Json (JObject
                [ ("message", JString ack);
                  ("debug",
                   JObject
                     [("resetLink",
                       JString ("http://localhost:5000/auth/reset-password?token="
                                ++ toString_hex (drawn 32 world_alice)))]) ]))).
Proof.
  destruct (forgot_password_bodies demo_isEmail demo_message demo_send false None None
              "a@x.com" "ghost@x.com" None None alice 3000 world_alice)
    as (Hghost & Halice & _); try reflexivity.
  split; [now rewrite Hghost | exact Halice].
Defined.

(** ** More runs in the concrete deployment *)




(** X9 at work: Mallory's login ends in the error handler. *)
Lemma login_on_record_without_dot_witness :
  api_login demo_scrypt (credentials "m@x.com" "plaintext-password") None world_mallory
  = (Ok (Next ERR_INVALID_ARG_TYPE, None), world_mallory).
Proof.
  apply (login_on_record_without_dot demo_scrypt "m@x.com" "plaintext-password" None
           mallory None world_mallory);
    [discriminate | discriminate | reflexivity | reflexivity].
Defined.


(** X11 at work: a Google login with Alice's address opens Alice's
    locally registered account. *)
Lemma google_login_links_by_email_witness :
  GoogleStrategy_verify demo_scrypt (mkProfile (Some ["a@x.com"])) 2000 world_alice
  = (Ok (Done_user alice), world_alice)
  /\ api_auth_google_callback demo_scrypt (mkProfile (Some ["a@x.com"])) 2000 None world_alice
     = (Ok (Redirect "/", Some 1), world_alice).
Proof.
  destruct (google_login_links_by_email demo_scrypt "a@x.com" [] alice 2000 None world_alice)
    as (Hverify & Hcallback & _).
  - discriminate.
  - reflexivity.
  - split; [exact Hverify | exact Hcallback].
Defined.

(** X12 at work: Bob arrives through Google. *)
Lemma google_callback_then_current_user_witness :
  exists (u : User) (w' : World),
    api_auth_google_callback demo_scrypt (mkProfile (Some ["bob@x.com"])) 2000 None world_alice
    = (Ok (Redirect "/", Some (id u)), w')
    /\ email u = "bob@x.com"
    /\ users w' = [alice; u]
    /\ api_user (Some (id u)) w' = (Ok (Respond 200 (Json (User_toJSON u)), Some (id u)), w').
Proof.
  apply (google_callback_then_current_user demo_scrypt "bob@x.com" [] 2000 None world_alice);
    [discriminate | reflexivity | exact ids_fresh_world_alice].
Defined.

(** X13 at work: the record of Alice's first password. *)
Lemma record_reads_back_witness :
  String.length alice_record = 161%nat
  /\ Buffer_from_hex (nth 1 (split "." alice_record) EmptyString) = drawn 16 world0.
Proof.
  destruct (record_reads_back demo_scrypt demo_scrypt_length "Aa1!aaaa" world0)
    as (_ & _ & _ & Hsalt & Hlen & _).
  split; [exact Hlen | exact Hsalt].
Defined.

(** X14 at work: Alice registers on the empty database, logs in, mistypes
    her password, and tries to register twice. *)
Lemma register_then_login_witness :
  exists (u : User) (w' : World),
    api_register demo_scrypt demo_isEmail demo_message
      (credentials "a@x.com" "Aa1!aaaa") 1000 None world0
    = (Ok (Respond 201 (Json (User_toJSON u)), Some (id u)), w')
    /\ api_login demo_scrypt (credentials "a@x.com" "Aa1!aaaa") None w'
       = (Ok (Respond 200 (Json (User_toJSON u)), Some (id u)), w')
    /\ api_login demo_scrypt (credentials "a@x.com" "Wrong1!x") None w'
       = (Ok (Respond 401 (message_body "Invalid email or password"), None), w')
    /\ api_register demo_scrypt demo_isEmail demo_message
         (credentials "a@x.com" "Bb2@bbbb") 1500 None w'
       = (Ok (Respond 400 (message_body "Email already registered"), None), w').
Proof.
  destruct (register_then_login demo_scrypt demo_isEmail demo_message demo_scrypt_length
              "a@x.com" "Aa1!aaaa" None 1000 None world0)
    as (u & w' & Hreg & Hlogin & Hwrong & Htwice).
  - reflexivity.
  - reflexivity.
  - discriminate.
  - reflexivity.
  - constructor.
  - exists u, w'. split; [exact Hreg|]. split; [apply Hlogin|].
    split; [|apply Htwice; reflexivity].
    apply Hwrong; [discriminate|]. vm_compute. discriminate.
Defined.
